(** * prepare_and_send_email.py: template substitution and delivery

    A shallow embedding of [src/prepare_and_send_email.py].

    - Python [str] values are [string]s; a character is a code point in
      the range 0..255.
    - Python [set]s of names are [gset string]; the keyword arguments of
      [safe_substitute] are an association list, in argument order.
    - Exceptions are values of [exn]; a function that can raise returns a
      [result]; the functions that log, print or spawn the mail agent run
      in the monad [Eff], which threads the trace of what they did.
    - Everything the script reads from its surroundings (command line,
      file system, the mail agent's behaviour) is a field of [World]. *)

From stdpp Require Import gmap strings list pretty.
From Stdlib Require Import Ascii ZArith.

Local Open Scope Z_scope.

(** ** Characters and the [str] methods the script calls *)

Module Char.

Definition code (c : ascii) : N := Ascii.N_of_ascii c.

Definition in_range (lo hi : N) (c : ascii) : bool :=
  ((lo <=? code c) && (code c <=? hi))%N.

(** [\w] of a [str] pattern: alphanumeric characters and the underscore.
    Below 128 these are [0-9A-Za-z_]; between 128 and 255 the characters
    for which [str.isalnum] holds. *)
Definition is_word (c : ascii) : bool :=
  in_range 48 57 c || in_range 65 90 c || in_range 95 95 c
  || in_range 97 122 c
  || in_range 170 170 c || in_range 178 179 c || in_range 181 181 c
  || in_range 185 186 c || in_range 188 190 c || in_range 192 214 c
  || in_range 216 246 c || in_range 248 255 c.

(** [str.isspace] on a single character, as used by [str.strip()]. *)
Definition is_space (c : ascii) : bool :=
  in_range 9 13 c || in_range 28 32 c || in_range 133 133 c
  || in_range 160 160 c.

Definition is_at (c : ascii) : bool := bool_decide (c = "@"%char).

End Char.

Module Str.

Definition startswith (s pat : string) : bool := String.prefix pat s.

(** [pat in s] *)
Fixpoint contains (pat s : string) : bool :=
  startswith s pat ||
  match s with
  | EmptyString => false
  | String _ s' => contains pat s'
  end.

(** The scan of [s.replace(old, new)] for a non-empty [old]: the text is
    read left to right; where [old] starts, [new] is written and the
    scan resumes behind the occurrence ([skip] counts the characters of
    the occurrence still to pass). *)
Fixpoint replace_from (old new : string) (skip : nat) (s : string) : string :=
  match s with
  | EmptyString => EmptyString
  | String c s' =>
      match skip with
      | S k => replace_from old new k s'
      | O =>
          if startswith s old
          then new +:+ replace_from old new (String.length old - 1) s'
          else String c (replace_from old new 0 s')
      end
  end.

Fixpoint interleave (new s : string) : string :=
  match s with
  | EmptyString => EmptyString
  | String c s' => String c (new +:+ interleave new s')
  end.

(** [s.replace(old, new)]; an empty [old] matches between all characters. *)
Definition replace (s old new : string) : string :=
  match old with
  | EmptyString => new +:+ interleave new s
  | String _ _ => replace_from old new 0 s
  end.

Fixpoint lstrip (s : string) : string :=
  match s with
  | EmptyString => EmptyString
  | String c s' => if Char.is_space c then lstrip s' else s
  end.

Fixpoint rstrip (s : string) : string :=
  match s with
  | EmptyString => EmptyString
  | String c s' =>
      match rstrip s' with
      | EmptyString => if Char.is_space c then EmptyString else String c EmptyString
      | r => String c r
      end
  end.

(** [s[n:]] *)
Fixpoint drop (n : nat) (s : string) : string :=
  match n, s with
  | S k, String _ s' => drop k s'
  | _, _ => s
  end.

Fixpoint endswith (s suffix : string) : bool :=
  bool_decide (s = suffix) ||
  match s with
  | EmptyString => false
  | String _ s' => endswith s' suffix
  end.

(** [s.strip()] *)
Definition strip (s : string) : string := lstrip (rstrip s).

End Str.

(** ** The regular expression [@(\w+)@] *)

Module Regex.

(** [\w+@] at the start of [s]: the captured word and the text behind
    the closing [@]. The repetition is greedy: it first tries to take one
    more word character and falls back to closing the group here. *)
Fixpoint match_word_at (s : string) : option (string * string) :=
  match s with
  | EmptyString => None
  | String c s' =>
      if Char.is_word c then
        match match_word_at s' with
        | Some (w, rest) => Some (String c w, rest)
        | None =>
            match s' with
            | String d rest =>
                if Char.is_at d then Some (String c EmptyString, rest) else None
            | EmptyString => None
            end
        end
      else None
  end.

(** [@(\w+)@] at the start of [s]. *)
Definition match_placeholder (s : string) : option (string * string) :=
  match s with
  | String c s' => if Char.is_at c then match_word_at s' else None
  | EmptyString => None
  end.

(** The scan of [re.findall]: a match is tried at every position from
    left to right, and after a match the scan resumes behind it ([skip]
    counts the characters of the match still to pass). *)
Fixpoint findall_from (skip : nat) (s : string) : list string :=
  match s with
  | EmptyString => []
  | String _ s' =>
      match skip with
      | S k => findall_from k s'
      | O =>
          match match_placeholder s with
          | Some (name, _) => name :: findall_from (String.length name + 1) s'
          | None => findall_from 0 s'
          end
      end
  end.

(** [re.findall(r'@(\w+)@', s)] *)
Definition findall (s : string) : list string := findall_from 0 s.

(** A name the group [(\w+)] can capture: word characters, at least one. *)
Fixpoint all_word (s : string) : bool :=
  match s with
  | EmptyString => true
  | String c s' => Char.is_word c && all_word s'
  end.

Definition is_name (s : string) : bool :=
  negb (bool_decide (s = "")) && all_word s.

End Regex.

(** ** Exceptions *)

(** The text of an exception. A set formatted into an f-string is kept as
    the set: the order in which Python prints its members is not fixed. *)
Inductive fragment :=
  | Text (s : string)
  | Names (ns : gset string).

Definition message := list fragment.

Inductive exc_class :=
  | BaseException | KeyboardInterrupt | Exception
  | OSError | FileNotFoundError
  | ValueError | UnicodeError | UnicodeDecodeError
  | RuntimeError | AttributeError | TypeError
  | SubprocessError | TemplateError.

Global Instance exc_class_eq_dec : EqDecision exc_class.
Proof. solve_decision. Defined.

(** The direct base class. [IOError] is an alias of [OSError]. *)
Definition base (c : exc_class) : option exc_class :=
  match c with
  | BaseException => None
  | KeyboardInterrupt | Exception => Some BaseException
  | OSError | ValueError | RuntimeError | AttributeError | TypeError
  | SubprocessError | TemplateError => Some Exception
  | FileNotFoundError => Some OSError
  | UnicodeError => Some ValueError
  | UnicodeDecodeError => Some UnicodeError
  end.

Fixpoint issubclass_upto (depth : nat) (c target : exc_class) : bool :=
  bool_decide (c = target) ||
  match depth, base c with
  | S d, Some b => issubclass_upto d b target
  | _, _ => false
  end.

Definition issubclass (c target : exc_class) : bool := issubclass_upto 4 c target.

(** A raised exception: an instance of a class with its text, or
    [SystemExit(status)], which derives from [BaseException] only. *)
Inductive exn :=
  | Exc (c : exc_class) (msg : message)
  | SystemExit (status : Z).

Definition isinstance (e : exn) (target : exc_class) : bool :=
  match e with
  | Exc c _ => issubclass c target
  | SystemExit _ => bool_decide (target = BaseException)
  end.

(** [str(e)] *)
Definition exn_str (e : exn) : message :=
  match e with
  | Exc _ msg => msg
  | SystemExit status => [Text (pretty status)]
  end.

Inductive result (A : Type) :=
  | Return (a : A)
  | Raise (e : exn).
Arguments Return {A} a.
Arguments Raise {A} e.

(** ** class EmailTemplate *)

Module EmailTemplate.

Record t := Build { template : string }.

Definition required_placeholders : gset string :=
  {[ "hostname"; "topic"; "body" ]}.

(** [set(re.findall(r'@(\w+)@', self.template))] *)
Definition found_placeholders (self : t) : gset string :=
  list_to_set (Regex.findall (template self)).

Definition _validate_template (self : t) : result unit :=
  let found_placeholders := found_placeholders self in
  if decide (found_placeholders = ∅)
  then Raise (Exc TemplateError [Text "Template contains no valid placeholders"])
  else
    let missing := required_placeholders ∖ found_placeholders in
    if decide (missing = ∅)
    then Return ()
    else Raise (Exc TemplateError
                  [Text "Template missing required placeholders: "; Names missing]).

Definition __init__ (template_str : string) : result t :=
  let self := Build template_str in
  match _validate_template self with
  | Return _ => Return self
  | Raise e => Raise e
  end.

(** [f'@{key}@'] *)
Definition pattern (key : string) : string := "@" +:+ key +:+ "@".

(** One turn of the loop [for key, value in kwargs.items()]. *)
Definition replace_step (result : string) (item : string * string) : string :=
  if Str.contains (pattern item.1) result
  then Str.replace result (pattern item.1) item.2
  else result.

Definition keys (kwargs : list (string * string)) : gset string :=
  list_to_set kwargs.*1.

(** The body of [safe_substitute], run on the keyword arguments once they
    are bound to [**kwargs]; [call_safe_substitute] below is the call. *)
Definition safe_substitute (self : t) (kwargs : list (string * string))
  : result string :=
  let result := template self in
  let required_values := found_placeholders self in
  let missing_values := required_values ∖ keys kwargs in
  if decide (missing_values = ∅)
  then Return (foldl replace_step result kwargs)
  else Raise (Exc TemplateError
                [Text "Missing values for placeholders: "; Names missing_values]).

(** The first of the keys that repeats an earlier one. *)
Fixpoint first_repeated (seen keys : list string) : option string :=
  match keys with
  | [] => None
  | key :: keys' =>
      if bool_decide (key ∈ seen) then Some key
      else first_repeated (key :: seen) keys'
  end.

(** Keyword arguments the signature [(self, **kwargs)] can take: no key
    twice, and no key [self], which names the receiver. *)
Definition bindable (kwargs : list (string * string)) : Prop :=
  NoDup kwargs.*1 ∧ "self" ∉ kwargs.*1.

Global Instance bindable_dec kwargs : Decision (bindable kwargs).
Proof. unfold bindable. apply _. Defined.

(** The call of [safe_substitute] with keyword arguments: Python binds the
    arguments first and raises [TypeError] when a key is given twice or is
    [self]; only then the body runs (texts as CPython 3.11 prints them for
    the script run as [__main__]). *)
Definition call_safe_substitute (self : t) (kwargs : list (string * string))
  : result string :=
  match first_repeated [] kwargs.*1 with
  | Some key =>
      Raise (Exc TypeError
               [Text ("__main__.EmailTemplate.safe_substitute() got multiple values for keyword argument '"
                      +:+ key +:+ "'")])
  | None =>
      if bool_decide ("self" ∈ kwargs.*1)
      then Raise (Exc TypeError
                    [Text "EmailTemplate.safe_substitute() got multiple values for argument 'self'"])
      else safe_substitute self kwargs
  end.

End EmailTemplate.

(** ** Effects: the trace of a run *)

Inductive log_level := DEBUG | INFO | ERROR.

Inductive event :=
  | Log (level : log_level) (msg : message)
  | PrintStderr (msg : message)
  | Popen (argv : list string) (stdin : string).

(** A computation that may raise and that appends to the trace. *)
Definition Eff (A : Type) : Type := list event → result A * list event.

Global Instance Eff_ret : MRet Eff := λ A a tr, (Return a, tr).

Global Instance Eff_bind : MBind Eff := λ A B f m tr,
  match m tr with
  | (Return a, tr') => f a tr'
  | (Raise e, tr') => (Raise e, tr')
  end.

Definition raise {A} (e : exn) : Eff A := λ tr, (Raise e, tr).

Definition emit (ev : event) : Eff unit := λ tr, (Return (), tr ++ [ev]).

Definition lift {A} (r : result A) : Eff A := λ tr, (r, tr).

(** [try: body except (classes) as e: handler e] *)
Definition try_except {A} (body : Eff A) (classes : list exc_class)
    (handler : exn → Eff A) : Eff A := λ tr,
  match body tr with
  | (Return a, tr') => (Return a, tr')
  | (Raise e, tr') =>
      if existsb (isinstance e) classes then handler e tr' else (Raise e, tr')
  end.

(** [f"{s}{m}"]: text put in front of a message. *)
Definition prepend (s : string) (m : message) : message :=
  match m with
  | Text t :: m' => Text (s +:+ t) :: m'
  | _ => Text s :: m
  end.



(** ** What the script reads from its surroundings *)

Record Namespace := {
  topic : string;
  body : string;
  hostname : option string
}.

Inductive parse_outcome :=
  | Parsed (args : Namespace)
  | ParserExit (status : Z).   (* argparse: usage error (2) or --help (0) *)

Inductive read_outcome :=
  | FileText (contents : string)
  | ReadFails (e : exn).       (* open() or file.read() raised *)

Inductive process_outcome :=
  | PopenFails (e : exn)               (* Popen raised, no child exists *)
  | CommunicateFails (e : exn)         (* child started, communicate raised *)
  | Exited (returncode : Z) (stdout stderr : string).

Record World := {
  parse_args : parse_outcome;
  uname_nodename : option string;      (* None: [os] has no [uname] *)
  environ_COMPUTERNAME : option string;
  script_dir : string;                 (* dirname(abspath(__file__)) *)
  msmtprc : string;                    (* expanduser('~/.msmtprc') *)
  isfile : string → bool;
  open_read : string → read_outcome;
  msmtp : list string → string → process_outcome
}.

(** ** The functions of the script *)

Definition get_hostname (w : World) : string :=
  match uname_nodename w with
  | Some nodename => nodename
  | None => default "unknown-host" (environ_COMPUTERNAME w)
  end.

Definition read_template (w : World) (template_path : string)
  : Eff EmailTemplate.t :=
  if negb (isfile w template_path)
  then raise (Exc FileNotFoundError
                (prepend "Template file not found: " [Text template_path]))
  else
    try_except
      (match open_read w template_path with
       | FileText contents => lift (EmailTemplate.__init__ contents)
       | ReadFails e => raise e
       end)
      [OSError; UnicodeDecodeError]
      (λ e, raise (Exc TemplateError
                     (prepend "Error reading template file: " (exn_str e)))).

Definition msmtp_argv (msmtp_config : string) : list string :=
  ["msmtp"; "--file"; msmtp_config; "--read-envelope-from"; "--read-recipients"].

Definition send_email (w : World) (content : string)
  : Eff (bool * option message) :=
  let msmtp_config := msmtprc w in
  if negb (isfile w msmtp_config)
  then raise (Exc RuntimeError
                (prepend "msmtp config not found: " [Text msmtp_config]))
  else
    try_except
      (match msmtp w (msmtp_argv msmtp_config) content with
       | PopenFails e => raise e
       | CommunicateFails e =>
           emit (Popen (msmtp_argv msmtp_config) content);; raise e
       | Exited returncode stdout stderr =>
           emit (Popen (msmtp_argv msmtp_config) content);;
           if bool_decide (returncode ≠ 0)
           then mret (false, Some [Text (Str.strip stderr)])
           else mret (true, None)
       end)
      [SubprocessError]
      (λ e, mret (false, Some (exn_str e))).

(** [os.path.join(a, b)] for a relative [b]. *)
Definition path_join (a b : string) : string :=
  if bool_decide (a = "") then b
  else if Str.endswith a "/" then a +:+ b
  else a +:+ "/" +:+ b.

(** [f"{error}"] for an [Optional[str]]. *)
Definition format_optional (error : option message) : message :=
  default [Text "None"] error.

(** [args.hostname or get_hostname()]: an empty [--hostname] counts as
    not given. *)
Definition effective_hostname (w : World) (args : Namespace) : string :=
  match hostname args with
  | Some h => if bool_decide (h = "") then get_hostname w else h
  | None => get_hostname w
  end.

Definition main (w : World) : Eff Z :=
  try_except
    (args ← match parse_args w with
            | Parsed args => mret args
            | ParserExit status => raise (SystemExit status)
            end;
     let hostname := effective_hostname w args in
     emit (Log DEBUG [Text "Input parameters:"]);;
     emit (Log DEBUG (prepend "  Topic: " [Text (topic args)]));;
     emit (Log DEBUG (prepend "  Body: " [Text (body args)]));;
     emit (Log DEBUG (prepend "  Hostname: " [Text hostname]));;
     let template_path := path_join (script_dir w) "template.txt" in
     template ← read_template w template_path;
     email_content ← lift (EmailTemplate.call_safe_substitute template
                             [("hostname", hostname);
                              ("topic", topic args);
                              ("body", body args)]);
     '(success, error) ← send_email w email_content;
     if negb success
     then raise (Exc RuntimeError
                   (prepend "Failed to send email: " (format_optional error)))
     else
       emit (Log INFO [Text "Email sent successfully"]);;
       mret 0)
    [Exception]
    (λ e,
       emit (Log ERROR (prepend "Script failed: " (exn_str e)));;
       emit (PrintStderr (prepend "Error: " (exn_str e)));;
       mret 1).


Definition run (w : World) : result Z * list event := main w [].

(** The four debug lines [main] logs once the arguments are parsed. *)
Definition input_log (w : World) (args : Namespace) : list event :=
  [Log DEBUG [Text "Input parameters:"];
   Log DEBUG [Text ("  Topic: " +:+ topic args)];
   Log DEBUG [Text ("  Body: " +:+ body args)];
   Log DEBUG [Text ("  Hostname: " +:+ effective_hostname w args)]].

(** What [main] logs and prints when it handles the exception [e]. *)
Definition failure_report (e : exn) : list event :=
  [Log ERROR (prepend "Script failed: " (exn_str e));
   PrintStderr (prepend "Error: " (exn_str e))].

(** The outcome of [main] once [e] reaches its [except Exception as e]. *)
Definition handled (e : exn) (tr : list event) : result Z * list event :=
  if isinstance e Exception
  then (Return 1, tr ++ failure_report e)
  else (Raise e, tr).

(** Where [main] looks for the template. *)
Definition template_path (w : World) : string :=
  path_join (script_dir w) "template.txt".

(** The keyword arguments [main] passes to [safe_substitute]. *)
Definition main_kwargs (w : World) (args : Namespace) : list (string * string) :=
  [("hostname", effective_hostname w args);
   ("topic", topic args);
   ("body", body args)].

(** [main] has read the template and rendered [email_content]. *)
Definition rendered (w : World) (args : Namespace) (email_content : string)
  : Prop :=
  ∃ contents template,
    isfile w (template_path w) = true
    ∧ open_read w (template_path w) = FileText contents
    ∧ EmailTemplate.__init__ contents = Return template
    ∧ EmailTemplate.safe_substitute template (main_kwargs w args) = Return email_content.


(** ** Reference semantics of the substitution

    These definitions are not taken from the source: they state in Rocq
    what the specification says about substitution, and the theorems
    compare [EmailTemplate.safe_substitute] with them. *)

Module Spec.

Import EmailTemplate.

(** [Replaced old new s out]: [out] is [s] with the occurrences of [old],
    found from left to right, replaced by [new]. The text put in for an
    occurrence is not read again: the pass goes on in the rest of [s]. *)
Inductive Replaced (old new : string) : string → string → Prop :=
  | Replaced_end :
      Replaced old new "" ""
  | Replaced_hit rest out :
      Replaced old new rest out →
      Replaced old new (old +:+ rest) (new +:+ out)
  | Replaced_copy c s out :
      Str.startswith (String c s) old = false →
      Replaced old new s out →
      Replaced old new (String c s) (String c out).

(** [Sequential s kwargs out]: [out] comes from [s] by one [Replaced]
    pass per key, in the order of [kwargs], each pass reading the text the
    passes before it produced. *)
Inductive Sequential : string → list (string * string) → string → Prop :=
  | Sequential_nil s :
      Sequential s [] s
  | Sequential_cons s key value acc kwargs out :
      Replaced (pattern key) value s acc →
      Sequential acc kwargs out →
      Sequential s ((key, value) :: kwargs) out.


(** [touches pat before value after]: in [before ++ value ++ after] some
    occurrence of [pat] shares a character with [value], because it starts
    in [before] and does not end there, or because it starts inside
    [value]. *)
Definition touches (pat before value after : string) : Prop :=
  (∃ b1 b2 rest,
     before = b1 +:+ b2
     ∧ b2 +:+ value +:+ after = pat +:+ rest
     ∧ (String.length b2 < String.length pat)%nat)
  ∨ (∃ v1 c v2 rest,
       value = v1 +:+ String c v2
       ∧ String c v2 +:+ after = pat +:+ rest).

(** The template text with every occurrence of [@key@] replaced by that
    key's value, as one pass over the template: where the token of a
    provided key starts, its value is written and the pass resumes
    behind the token; every other character is copied. *)
Fixpoint substitute_all_from (kwargs : list (string * string))
    (skip : nat) (s : string) : string :=
  match s with
  | EmptyString => EmptyString
  | String c s' =>
      match skip with
      | S k => substitute_all_from kwargs k s'
      | O =>
          match List.find (λ item, Str.startswith s (pattern item.1)) kwargs with
          | Some (key, value) =>
              value +:+ substitute_all_from kwargs (String.length key + 1) s'
          | None => String c (substitute_all_from kwargs 0 s')
          end
      end
  end.

Definition substitute_all (s : string) (kwargs : list (string * string))
  : string :=
  substitute_all_from kwargs 0 s.

End Spec.

(** ** Concrete runs *)

Module Runs.

Definition args_A : Namespace :=
  {| topic := "Disk full"; body := "Check /var"; hostname := Some "node1" |}.

Definition template_A : string :=
  "From: a@x
To: b@y
Subject: @topic@

@body@ on @hostname@".

(** Scenario A: template and configuration in place, the agent accepts. *)
Definition scenario_A : World := {|
  parse_args := Parsed args_A;
  uname_nodename := Some "build7";
  environ_COMPUTERNAME := None;
  script_dir := "/opt/notify";
  msmtprc := "/home/ops/.msmtprc";
  isfile := λ p, bool_decide (p = "/opt/notify/template.txt")
                 || bool_decide (p = "/home/ops/.msmtprc");
  open_read := λ _, FileText template_A;
  msmtp := λ _ _, Exited 0 "" ""
|}.

(** Scenario B: no configuration file for the agent. *)
Definition scenario_B : World := {|
  parse_args := Parsed args_A;
  uname_nodename := Some "build7";
  environ_COMPUTERNAME := None;
  script_dir := "/opt/notify";
  msmtprc := "/home/ops/.msmtprc";
  isfile := λ p, bool_decide (p = "/opt/notify/template.txt");
  open_read := λ _, FileText template_A;
  msmtp := λ _ _, Exited 0 "" ""
|}.

(** Scenario C: the agent exits with status 3. *)
Definition scenario_C : World := {|
  parse_args := Parsed args_A;
  uname_nodename := Some "build7";
  environ_COMPUTERNAME := None;
  script_dir := "/opt/notify";
  msmtprc := "/home/ops/.msmtprc";
  isfile := λ p, bool_decide (p = "/opt/notify/template.txt")
                 || bool_decide (p = "/home/ops/.msmtprc");
  open_read := λ _, FileText template_A;
  msmtp := λ _ _, Exited 3 "" "relay timeout
"
|}.

(** Scenario D: no template file next to the script. *)
Definition scenario_D : World := {|
  parse_args := Parsed args_A;
  uname_nodename := Some "build7";
  environ_COMPUTERNAME := None;
  script_dir := "/opt/notify";
  msmtprc := "/home/ops/.msmtprc";
  isfile := λ p, bool_decide (p = "/home/ops/.msmtprc");
  open_read := λ _, ReadFails (Exc FileNotFoundError
                 [Text "[Errno 2] No such file or directory"]);
  msmtp := λ _ _, Exited 0 "" ""
|}.

(** The template file is there but cannot be decoded. *)
Definition undecodable_template : World := {|
  parse_args := Parsed args_A;
  uname_nodename := Some "build7";
  environ_COMPUTERNAME := None;
  script_dir := "/opt/notify";
  msmtprc := "/home/ops/.msmtprc";
  isfile := λ p, bool_decide (p = "/opt/notify/template.txt")
                 || bool_decide (p = "/home/ops/.msmtprc");
  open_read := λ _, ReadFails (Exc UnicodeDecodeError
                 [Text "'utf-8' codec can't decode byte 0xff in position 0: invalid start byte"]);
  msmtp := λ _ _, Exited 0 "" ""
|}.

(** The template file holds text without any placeholder. *)
Definition plain_template : World := {|
  parse_args := Parsed args_A;
  uname_nodename := Some "build7";
  environ_COMPUTERNAME := None;
  script_dir := "/opt/notify";
  msmtprc := "/home/ops/.msmtprc";
  isfile := λ p, bool_decide (p = "/opt/notify/template.txt")
                 || bool_decide (p = "/home/ops/.msmtprc");
  open_read := λ _, FileText "Subject: hello";
  msmtp := λ _ _, Exited 0 "" ""
|}.

(** The [msmtp] executable is not installed: [Popen] raises
    [FileNotFoundError]. *)
Definition msmtp_not_installed : World := {|
  parse_args := Parsed args_A;
  uname_nodename := Some "build7";
  environ_COMPUTERNAME := None;
  script_dir := "/opt/notify";
  msmtprc := "/home/ops/.msmtprc";
  isfile := λ p, bool_decide (p = "/opt/notify/template.txt")
                 || bool_decide (p = "/home/ops/.msmtprc");
  open_read := λ _, FileText template_A;
  msmtp := λ _ _, PopenFails (Exc FileNotFoundError
             [Text "[Errno 2] No such file or directory: 'msmtp'"])
|}.



Definition three_placeholders : EmailTemplate.t :=
  EmailTemplate.Build "@hostname@ @topic@ @body@".

Definition colon_template : EmailTemplate.t :=
  EmailTemplate.Build "@hostname@:@topic@:@body@".


End Runs.

(** ** Templates by their parts

    Not taken from the source: a way to write a template down as the
    pieces a reader sees in it, used to state what the code does on
    templates of the usual shape. *)

Module Shape.

Inductive segment :=
  | Piece (text : string)      (* text without [@] *)
  | At                         (* an [@] of the text itself, as in an address *)
  | Hole (name : string).      (* the placeholder [@name@] *)

Fixpoint flatten (segs : list segment) : string :=
  match segs with
  | [] => ""
  | Piece text :: segs' => text +:+ flatten segs'
  | At :: segs' => String "@" (flatten segs')
  | Hole name :: segs' => EmailTemplate.pattern name +:+ flatten segs'
  end.

Fixpoint no_at (s : string) : bool :=
  match s with
  | EmptyString => true
  | String c s' => negb (Char.is_at c) && no_at s'
  end.

Definition has_nonword (s : string) : bool := negb (Regex.all_word s).

(** [wf_from clear segs]: the pieces hold no [@], the holes carry names,
    and every [@] (of a hole or of the text) that follows another one is
    separated from it by a character that is no word character. [clear]
    tells whether such a character, or the start of the text, has been
    passed since the last [@]. *)
Fixpoint wf_from (clear : bool) (segs : list segment) : bool :=
  match segs with
  | [] => true
  | Piece text :: segs' =>
      no_at text && wf_from (clear || has_nonword text) segs'
  | At :: segs' => clear && wf_from false segs'
  | Hole name :: segs' => Regex.is_name name && clear && wf_from false segs'
  end.

Definition well_formed (segs : list segment) : bool := wf_from true segs.

Fixpoint holes (segs : list segment) : list string :=
  match segs with
  | [] => []
  | Hole name :: segs' => name :: holes segs'
  | _ :: segs' => holes segs'
  end.

(** The value the keyword arguments give to a name: the first one. *)
Fixpoint value_of (kwargs : list (string * string)) (name : string)
  : option string :=
  match kwargs with
  | [] => None
  | (key, value) :: kwargs' =>
      if bool_decide (key = name) then Some value else value_of kwargs' name
  end.

(** The template with the holes of one key filled. *)
Definition fill (key value : string) (segs : list segment) : list segment :=
  (λ seg, match seg with
          | Hole name => if bool_decide (key = name) then Piece value else seg
          | _ => seg
          end) <$> segs.

(** The template with every hole filled that has a value. *)
Definition fill_all (kwargs : list (string * string)) (segs : list segment)
  : list segment :=
  (λ seg, match seg with
          | Hole name => from_option Piece seg (value_of kwargs name)
          | _ => seg
          end) <$> segs.

(** The template of scenario A. *)
Definition template_A : list segment :=
  [Piece "From: a"; At; Piece "x
To: b"; At; Piece "y
Subject: "; Hole "topic"; Piece "

"; Hole "body"; Piece " on "; Hole "hostname"].

End Shape.

(** [s] consists of whitespace. *)
Fixpoint all_space (s : string) : bool :=
  match s with
  | EmptyString => true
  | String c s' => Char.is_space c && all_space s'
  end.

(** The last character of [s]. *)
Fixpoint last_char (s : string) : option ascii :=
  match s with
  | EmptyString => None
  | String c EmptyString => Some c
  | String _ s' => last_char s'
  end.

(** The child processes a trace starts: command line and input of each. *)
Fixpoint started (tr : list event) : list (list string * string) :=
  match tr with
  | [] => []
  | Popen argv stdin :: tr' => (argv, stdin) :: started tr'
  | _ :: tr' => started tr'
  end.

(** The world [w] on a system that reports another node name and another
    [COMPUTERNAME]. *)
Definition with_system_name (w : World)
    (nodename computername : option string) : World :=
  {| parse_args := parse_args w;
     uname_nodename := nodename;
     environ_COMPUTERNAME := computername;
     script_dir := script_dir w;
     msmtprc := msmtprc w;
     isfile := isfile w;
     open_read := open_read w;
     msmtp := msmtp w |}.

(** The world [w] with another command line. *)
Definition with_args (w : World) (args : Namespace) : World :=
  {| parse_args := Parsed args;
     uname_nodename := uname_nodename w;
     environ_COMPUTERNAME := environ_COMPUTERNAME w;
     script_dir := script_dir w;
     msmtprc := msmtprc w;
     isfile := isfile w;
     open_read := open_read w;
     msmtp := msmtp w |}.

(** * Properties *)

(** ** Strings *)

Section StrFacts.

Import Str.
Implicit Types s old new rest out : string.

Lemma app_cons c s rest : String c s +:+ rest = String c (s +:+ rest).
Proof. reflexivity. Qed.

Lemma app_empty_l s : "" +:+ s = s.
Proof. reflexivity. Qed.

Lemma app_assoc_str s rest out : (s +:+ rest) +:+ out = s +:+ (rest +:+ out).
Proof. induction s as [|c s IH]; [done|]. by rewrite !app_cons, IH. Qed.

Lemma startswith_empty s : startswith s "" = true.
Proof. by destruct s. Qed.

Lemma startswith_cons c s d old :
  startswith (String c s) (String d old)
  = bool_decide (d = c) && startswith s old.
Proof.
  unfold startswith; simpl.
  destruct (ascii_dec d c) as [->|Hne].
  - by rewrite bool_decide_eq_true_2.
  - by rewrite bool_decide_eq_false_2.
Qed.

Lemma startswith_app old rest : startswith (old +:+ rest) old = true.
Proof.
  induction old as [|d old IH]; [apply startswith_empty|].
  by rewrite app_cons, startswith_cons, bool_decide_eq_true_2, IH.
Qed.

Lemma startswith_inv s old :
  startswith s old = true → ∃ rest, s = old +:+ rest.
Proof.
  revert s; induction old as [|d old IH]; intros s H.
  - by exists s.
  - destruct s as [|c s]; [done|].
    rewrite startswith_cons in H.
    apply andb_true_iff in H as [Hc Hs].
    apply bool_decide_eq_true_1 in Hc as ->.
    destruct (IH _ Hs) as [rest ->]. by exists rest.
Qed.

Lemma drop_app old rest : drop (String.length old) (old +:+ rest) = rest.
Proof. induction old as [|d old IH]; [by destruct rest|done]. Qed.

Lemma contains_cons pat c s :
  contains pat (String c s) = startswith (String c s) pat || contains pat s.
Proof. reflexivity. Qed.

Lemma contains_startswith pat s : startswith s pat = true → contains pat s = true.
Proof. intros H. destruct s; cbn [contains]; by rewrite H. Qed.

Lemma not_contains_startswith pat s :
  contains pat s = false → startswith s pat = false.
Proof.
  destruct s; cbn [contains]; intros H; by apply orb_false_iff in H as [? ?].
Qed.

Lemma replace_from_skip old new k s :
  replace_from old new k s = replace_from old new 0 (drop k s).
Proof.
  revert k; induction s as [|c s IH]; intros [|k]; simpl; done.
Qed.

(** The three equations of the scan. *)
Lemma replace_empty d old new : replace "" (String d old) new = "".
Proof. reflexivity. Qed.

Lemma replace_hit d old new rest :
  replace (String d old +:+ rest) (String d old) new
  = new +:+ replace rest (String d old) new.
Proof.
  unfold replace.
  change (String d old +:+ rest) with (String d (old +:+ rest)) at 1.
  cbn [replace_from].
  change (String d (old +:+ rest)) with (String d old +:+ rest).
  rewrite startswith_app.
  replace (String.length (String d old) - 1)%nat with (String.length old)
    by (simpl; lia).
  by rewrite replace_from_skip, drop_app.
Qed.

Lemma replace_copy c s old new :
  startswith (String c s) old = false →
  replace (String c s) old new = String c (replace s old new).
Proof.
  intros H. destruct old as [|d old]; [by rewrite startswith_empty in H|].
  unfold replace; cbn [replace_from]. by rewrite H.
Qed.

Lemma replace_not_contains s old new :
  contains old s = false → replace s old new = s.
Proof.
  induction s as [|c s IH]; intros H.
  - destruct old; [done|reflexivity].
  - rewrite contains_cons in H. apply orb_false_iff in H as [H1 H2].
    rewrite replace_copy by done. by rewrite IH.
Qed.

End StrFacts.

(** ** One replacement pass *)

Section ReplacedFacts.

Import Str Spec.
Implicit Types s old new rest out : string.

Lemma length_app s rest :
  String.length (s +:+ rest) = (String.length s + String.length rest)%nat.
Proof. induction s as [|c s IH]; [done|]. rewrite app_cons; simpl. by rewrite IH. Qed.

Lemma Replaced_replace_upto d old new (n : nat) s :
  (String.length s ≤ n)%nat →
  Replaced (String d old) new s (replace s (String d old) new).
Proof.
  revert s; induction n as [|n IH]; intros s Hlen.
  - destruct s; [constructor|simpl in Hlen; lia].
  - destruct s as [|c s]; [constructor|].
    destruct (startswith (String c s) (String d old)) eqn:Hstart.
    + apply startswith_inv in Hstart as [rest Hrest].
      rewrite Hrest, replace_hit. constructor. apply IH.
      apply (f_equal String.length) in Hrest.
      rewrite length_app in Hrest. simpl in Hrest, Hlen. lia.
    + rewrite replace_copy by done.
      constructor; [done|]. apply IH. simpl in Hlen. lia.
Qed.

(** [str.replace] performs the pass ... *)
Lemma Replaced_replace d old new s :
  Replaced (String d old) new s (replace s (String d old) new).
Proof. by apply (Replaced_replace_upto _ _ _ (String.length s)). Qed.

(** ... and the pass has one outcome only. *)
Lemma Replaced_fun d old new s out :
  Replaced (String d old) new s out → out = replace s (String d old) new.
Proof.
  induction 1 as [|rest out _ IH|c s out Hstart _ IH].
  - done.
  - by rewrite replace_hit, IH.
  - by rewrite replace_copy, IH.
Qed.

(** Where [old] occurs, [new] stands in the outcome. *)
Lemma Replaced_contains d old new s out :
  Replaced (String d old) new s out →
  contains (String d old) s = true → contains new out = true.
Proof.
  induction 1 as [|rest out _ IH|c s out Hstart _ IH]; intros Hin.
  - done.
  - apply contains_startswith, startswith_app.
  - rewrite contains_cons, Hstart in Hin.
    rewrite contains_cons, IH by done. apply orb_true_r.
Qed.

Lemma startswith_iff s old :
  startswith s old = true ↔ ∃ rest, s = old +:+ rest.
Proof.
  split; [apply startswith_inv|]. intros [rest ->]. apply startswith_app.
Qed.

Lemma startswith_app_l s rest old :
  startswith s old = true → startswith (s +:+ rest) old = true.
Proof.
  intros [tail ->]%startswith_inv. rewrite app_assoc_str. apply startswith_app.
Qed.

(** An occurrence that starts in [s +:+ rest] and is no longer than [s]
    lies in [s]. *)
Lemma startswith_short s rest old :
  startswith (s +:+ rest) old = true →
  (String.length old ≤ String.length s)%nat →
  startswith s old = true.
Proof.
  revert s; induction old as [|d old IH]; intros s Hstart Hlen.
  - apply startswith_empty.
  - destruct s as [|c s]; [simpl in Hlen; lia|].
    rewrite app_cons, startswith_cons in Hstart.
    apply andb_true_iff in Hstart as [Hc Hs].
    rewrite startswith_cons, Hc. apply IH; [done|]. simpl in Hlen. lia.
Qed.

(** A pass copies a stretch of text in which no occurrence starts. *)
Lemma replace_through d old new value after :
  (∀ v1 c v2, value = v1 +:+ String c v2 →
              startswith (String c v2 +:+ after) (String d old) = false) →
  replace (value +:+ after) (String d old) new
  = value +:+ replace after (String d old) new.
Proof.
  induction value as [|c value IH]; intros Hclear; [done|].
  rewrite !app_cons, replace_copy by apply (Hclear "" c value eq_refl).
  rewrite IH; [done|]. intros v1 c' v2 ->. by apply (Hclear (String c v1)).
Qed.

(** A pass leaves [value] in place when no occurrence of the pattern
    touches it: the text before and the text after it are rewritten as if
    each stood alone. *)
Lemma replace_around_upto d old new value after (n : nat) before :
  (String.length before ≤ n)%nat →
  ¬ touches (String d old) before value after →
  replace (before +:+ value +:+ after) (String d old) new
  = replace before (String d old) new
    +:+ value +:+ replace after (String d old) new.
Proof.
  revert before; induction n as [|n IH]; intros before Hlen Hclear.
  - destruct before; [|simpl in Hlen; lia].
    rewrite replace_empty, !app_empty_l. apply replace_through.
    intros v1 c v2 ->.
    destruct (startswith (String c v2 +:+ after) (String d old)) eqn:Hstart;
      [|done].
    apply startswith_inv in Hstart as [rest Hrest].
    destruct Hclear. right. by exists v1, c, v2, rest.
  - destruct before as [|c before].
    { apply (IH ""); [simpl; lia|done]. }
    destruct (startswith (String c before +:+ value +:+ after) (String d old))
      eqn:Hstart.
    + assert (String.length (String d old) ≤ String.length (String c before))%nat
        as Hinside.
      { apply Nat.nlt_ge. intros Hshort.
        apply startswith_inv in Hstart as [rest Hrest].
        apply Hclear. left. by exists "", (String c before), rest. }
      apply startswith_short in Hstart; [|done].
      apply startswith_inv in Hstart as [tail Htail]. rewrite Htail.
      rewrite app_assoc_str, !replace_hit, app_assoc_str. f_equal.
      apply IH.
      * apply (f_equal String.length) in Htail.
        rewrite length_app in Htail. simpl in Htail, Hlen. lia.
      * intros [(b1 & b2 & rest & -> & Hocc & Hshort)
               |(v1 & c' & v2 & rest & -> & Hocc)]; apply Hclear.
        -- left. exists (String d old +:+ b1), b2, rest.
           by rewrite Htail, app_assoc_str.
        -- right. by exists v1, c', v2, rest.
    + rewrite app_cons in Hstart |- *. rewrite replace_copy by done.
      rewrite replace_copy.
      2:{ destruct (startswith (String c before) (String d old)) eqn:Hhere;
            [|done].
          apply (startswith_app_l _ (value +:+ after)) in Hhere.
          rewrite app_cons in Hhere. congruence. }
      rewrite app_cons. f_equal. apply IH; [simpl in Hlen; lia|].
      intros [(b1 & b2 & rest & -> & Hocc & Hshort)
             |(v1 & c' & v2 & rest & -> & Hocc)]; apply Hclear.
      * left. by exists (String c b1), b2, rest.
      * right. by exists v1, c', v2, rest.
Qed.

Lemma replace_around d old new before value after :
  ¬ touches (String d old) before value after →
  replace (before +:+ value +:+ after) (String d old) new
  = replace before (String d old) new
    +:+ value +:+ replace after (String d old) new.
Proof. by apply (replace_around_upto _ _ _ _ _ (String.length before)). Qed.

End ReplacedFacts.

(** ** Substitution *)

Section SubstituteFacts.

Import Str Spec EmailTemplate.
Implicit Types (self : EmailTemplate.t) (kwargs : list (string * string)).

Lemma pattern_cons key : pattern key = String "@" (key +:+ "@").
Proof. reflexivity. Qed.

(** The test [if pattern in result] does not change what a turn of the
    loop computes. *)
Lemma replace_step_replace acc item :
  replace_step acc item = replace acc (pattern item.1) item.2.
Proof.
  unfold replace_step.
  destruct (contains _ _) eqn:Hin; [done|]. by rewrite replace_not_contains.
Qed.

Lemma replace_step_absent acc item :
  contains (pattern item.1) acc = false → replace_step acc item = acc.
Proof. unfold replace_step. by intros ->. Qed.

Lemma replace_step_Replaced acc key value :
  Replaced (pattern key) value acc (replace_step acc (key, value)).
Proof. rewrite replace_step_replace, pattern_cons. apply Replaced_replace. Qed.

Lemma foldl_Sequential kwargs s :
  Sequential s kwargs (foldl replace_step s kwargs).
Proof.
  revert s; induction kwargs as [|[key value] kwargs IH]; intros s; simpl.
  - constructor.
  - econstructor; [apply replace_step_Replaced|apply IH].
Qed.

Lemma Sequential_fun s kwargs out :
  Sequential s kwargs out → out = foldl replace_step s kwargs.
Proof.
  induction 1 as [|s key value acc kwargs out Hpass _ IH]; [done|].
  rewrite pattern_cons in Hpass. apply Replaced_fun in Hpass.
  simpl. by rewrite replace_step_replace, IH, Hpass.
Qed.

Lemma keys_app kwargs1 kwargs2 :
  keys (kwargs1 ++ kwargs2) = keys kwargs1 ∪ keys kwargs2.
Proof. unfold keys. rewrite fmap_app. apply leibniz_equiv, list_to_set_app. Qed.

Lemma keys_cons key value kwargs :
  keys ((key, value) :: kwargs) = {[ key ]} ∪ keys kwargs.
Proof. reflexivity. Qed.

Lemma missing_empty_iff (found provided : gset string) :
  found ∖ provided = ∅ ↔ found ⊆ provided.
Proof.
  split.
  - intros Hempty name Hname.
    destruct (decide (name ∈ provided)) as [|Hout]; [done|].
    assert (name ∈ found ∖ provided) as Hin by (by apply elem_of_difference).
    rewrite Hempty in Hin. by apply not_elem_of_empty in Hin.
  - intros Hsub. apply leibniz_equiv. intros name. split.
    + intros [Hin Hout]%elem_of_difference. destruct Hout. by apply Hsub.
    + by intros ?%not_elem_of_empty.
Qed.

(** With every placeholder provided, the loop runs and its result is
    returned. *)
Lemma safe_substitute_covered self kwargs :
  found_placeholders self ⊆ keys kwargs →
  safe_substitute self kwargs
  = Return (foldl replace_step (template self) kwargs).
Proof.
  intros Hcov. unfold safe_substitute.
  by rewrite decide_True by by apply missing_empty_iff.
Qed.

Lemma safe_substitute_uncovered self kwargs :
  ¬ found_placeholders self ⊆ keys kwargs →
  safe_substitute self kwargs
  = Raise (Exc TemplateError
             [Text "Missing values for placeholders: ";
              Names (found_placeholders self ∖ keys kwargs)]).
Proof.
  intros Hcov. unfold safe_substitute.
  by rewrite decide_False by by rewrite missing_empty_iff.
Qed.

Lemma foldl_absent kwargs acc :
  Forall (λ item, contains (pattern item.1) acc = false) kwargs →
  foldl replace_step acc kwargs = acc.
Proof.
  induction 1 as [|item kwargs Hitem _ IH]; [done|].
  simpl. by rewrite replace_step_absent.
Qed.

(** *** The call: binding the keyword arguments *)

Lemma first_repeated_None seen ks :
  first_repeated seen ks = None
  ↔ NoDup ks ∧ ∀ key, key ∈ ks → key ∉ seen.
Proof.
  revert seen; induction ks as [|k ks IH]; intros seen; cbn [first_repeated].
  - split; [|done]. intros _. split; [constructor|]. by intros ? ?%elem_of_nil.
  - case_bool_decide as Hseen.
    + split; [done|]. intros [_ Hfresh]. destruct (Hfresh k); [by left|done].
    + rewrite IH, NoDup_cons. split.
      * intros [Hnodup Hfresh]. split; [split; [|done]|].
        -- intros Hk. destruct (Hfresh _ Hk). by left.
        -- intros key [->|Hkey]%elem_of_cons; [done|].
           intros Hin. destruct (Hfresh _ Hkey). by right.
      * intros [[Hk Hnodup] Hfresh]. split; [done|].
        intros key Hkey [->|Hin]%elem_of_cons; [done|].
        destruct (Hfresh key); [by right|done].
Qed.

(** A call with bindable keyword arguments runs the body on them. *)
Lemma call_bindable self kwargs :
  bindable kwargs →
  call_safe_substitute self kwargs = safe_substitute self kwargs.
Proof.
  intros [Hnodup Hself]. unfold call_safe_substitute.
  rewrite (proj2 (first_repeated_None [] kwargs.*1)).
  - by rewrite bool_decide_eq_false_2.
  - split; [done|]. by intros ? _ ?%elem_of_nil.
Qed.

(** Any other call raises [TypeError] before the body runs. *)
Lemma call_unbindable self kwargs :
  ¬ bindable kwargs →
  ∃ msg, call_safe_substitute self kwargs = Raise (Exc TypeError msg).
Proof.
  intros Hbind. unfold call_safe_substitute.
  destruct (first_repeated [] kwargs.*1) as [key|] eqn:Hrep; [by eexists|].
  apply first_repeated_None in Hrep as [Hnodup _].
  case_bool_decide as Hself; [by eexists|]. by destruct Hbind.
Qed.

Lemma bindable_remove kwargs1 item kwargs2 :
  bindable (kwargs1 ++ item :: kwargs2) → bindable (kwargs1 ++ kwargs2).
Proof.
  unfold bindable. rewrite !fmap_app, fmap_cons.
  rewrite !NoDup_app, NoDup_cons, !elem_of_app, elem_of_cons.
  intros [(Hnodup1 & Hfresh & _ & Hnodup2) Hself].
  split; [split; [done|split; [|done]]|].
  - intros key Hkey Hin. destruct (Hfresh _ Hkey). by right.
  - intros [?|?]; apply Hself; [by left|by right; right].
Qed.

End SubstituteFacts.

Section SubstituteClaims.

Import Str Spec EmailTemplate.
Implicit Types (self : EmailTemplate.t) (kwargs : list (string * string)).

(** For one key, the one-pass reference substitution is [str.replace]. *)
Lemma substitute_all_from_single key value skip s :
  substitute_all_from [(key, value)] skip s
  = replace_from (pattern key) value skip s.
Proof.
  revert skip; induction s as [|c s IH]; intros [|skip];
    cbn [substitute_all_from replace_from List.find fst]; try done.
  destruct (startswith (String c s) (pattern key)).
  - rewrite IH. do 2 f_equal. rewrite pattern_cons. simpl.
    rewrite length_app. simpl. lia.
  - by rewrite IH.
Qed.

Lemma substitute_all_single key value s :
  substitute_all s [(key, value)] = replace s (pattern key) value.
Proof. apply substitute_all_from_single. Qed.

Lemma foldl_substitute_all kwargs s :
  foldl (λ acc item, substitute_all acc [item]) s kwargs
  = foldl replace_step s kwargs.
Proof.
  revert s; induction kwargs as [|[key value] kwargs IH]; intros s; [done|].
  simpl. by rewrite IH, substitute_all_single, replace_step_replace.
Qed.

(** C1 (as amended): for every template and every substitution map that
    the method can be called with (no key twice, no key [self]) and whose
    keys cover the placeholder names found in the template,
    [safe_substitute] succeeds and returns the text obtained by taking the
    keys one at a time, in argument order, and replacing every occurrence
    of [@key@] in the text produced so far by that key's value. A map
    with the key [self] or with a key given twice cannot be passed: the
    call raises [TypeError] before the body runs. On the template
    ["@hostname@:@topic@:@body@"] with hostname ["H"], topic ["Top"] and
    body ["B"] the call returns exactly ["H:Top:B"]. *)
Theorem safe_substitute_replaces_key_by_key :
  (∀ self kwargs,
     bindable kwargs →
     found_placeholders self ⊆ keys kwargs →
     ∃ out,
       call_safe_substitute self kwargs = Return out
       ∧ Sequential (template self) kwargs out
       ∧ (∀ out', Sequential (template self) kwargs out' → out' = out)
       ∧ out = foldl (λ acc item, substitute_all acc [item])
                 (template self) kwargs)
  ∧ (∀ self kwargs,
       ¬ bindable kwargs →
       ∃ msg, call_safe_substitute self kwargs = Raise (Exc TypeError msg))
  ∧ call_safe_substitute Runs.colon_template
      [("hostname", "H"); ("topic", "Top"); ("body", "B")]
    = Return "H:Top:B".
Proof.
  split; [|split; [apply call_unbindable|by vm_compute]].
  intros self kwargs Hbind Hcov.
  exists (foldl replace_step (template self) kwargs). repeat split.
  - rewrite call_bindable by done. by apply safe_substitute_covered.
  - apply foldl_Sequential.
  - apply Sequential_fun.
  - by rewrite foldl_substitute_all.
Qed.

Lemma safe_substitute_replaces_key_by_key_witness :
  (∃ out,
     call_safe_substitute Runs.three_placeholders
       [("hostname", "@topic@"); ("topic", "T"); ("body", "B")] = Return out
     ∧ Sequential "@hostname@ @topic@ @body@"
         [("hostname", "@topic@"); ("topic", "T"); ("body", "B")] out
     ∧ (∀ out', Sequential "@hostname@ @topic@ @body@"
                  [("hostname", "@topic@"); ("topic", "T"); ("body", "B")] out' →
                out' = out)
     ∧ out = foldl (λ acc item, substitute_all acc [item])
               "@hostname@ @topic@ @body@"
               [("hostname", "@topic@"); ("topic", "T"); ("body", "B")])
  ∧ ∃ msg,
      call_safe_substitute (Build "@self@ @hostname@ @topic@ @body@")
        [("self", "S"); ("hostname", "H"); ("topic", "T"); ("body", "B")]
      = Raise (Exc TypeError msg).
Proof.
  split.
  - apply (proj1 safe_substitute_replaces_key_by_key Runs.three_placeholders);
      compute_done.
  - apply (proj1 (proj2 safe_substitute_replaces_key_by_key)). compute_done.
Defined.

(** C1 (as stated) fails: the keys cover the template's placeholders, yet
    the result is not the template with every [@key@] replaced by its
    value. *)
Lemma safe_substitute_is_not_one_pass :
  found_placeholders Runs.three_placeholders
    ⊆ keys [("hostname", "@topic@"); ("topic", "T"); ("body", "B")]
  ∧ substitute_all (template Runs.three_placeholders)
      [("hostname", "@topic@"); ("topic", "T"); ("body", "B")]
    = "@topic@ T B"
  ∧ safe_substitute Runs.three_placeholders
      [("hostname", "@topic@"); ("topic", "T"); ("body", "B")]
    ≠ Return (substitute_all (template Runs.three_placeholders)
                [("hostname", "@topic@"); ("topic", "T"); ("body", "B")]).
Proof.
  split; [compute_done|].
  split; [by vm_compute|].
  vm_compute. discriminate.
Qed.

(** C5 (as stated) fails: the key set [{self}] does not cover the
    placeholders of the constructed template, and the call raises
    [TypeError], not a [TemplateError] naming the missing keys. *)
Lemma self_key_raises_TypeError :
  EmailTemplate.__init__ "@hostname@ @topic@ @body@"
  = Return Runs.three_placeholders
  ∧ ¬ found_placeholders Runs.three_placeholders ⊆ keys [("self", "S")]
  ∧ call_safe_substitute Runs.three_placeholders [("self", "S")]
    = Raise (Exc TypeError
               [Text "EmailTemplate.safe_substitute() got multiple values for argument 'self'"])
  ∧ ¬ ∃ msg,
        call_safe_substitute Runs.three_placeholders [("self", "S")]
        = Raise (Exc TemplateError msg).
Proof.
  split; [by vm_compute|]. split; [compute_done|]. split; [by vm_compute|].
  intros [msg Hmsg]. by vm_compute in Hmsg.
Qed.

(** C5 (as amended): when the substitution map is one the method can be
    called with (no key twice, no key [self]) and its keys do not cover
    every placeholder name found in the template text, as it is when
    [safe_substitute] runs, [safe_substitute] raises a [TemplateError]
    whose text names the missing keys, exactly the found names that are
    not keys, and nothing is rendered. *)
Theorem safe_substitute_missing_values self kwargs :
  bindable kwargs →
  ¬ found_placeholders self ⊆ keys kwargs →
  call_safe_substitute self kwargs
  = Raise (Exc TemplateError
             [Text "Missing values for placeholders: ";
              Names (found_placeholders self ∖ keys kwargs)])
  ∧ found_placeholders self ∖ keys kwargs ≠ ∅
  ∧ (∀ name, name ∈ found_placeholders self ∖ keys kwargs
             ↔ name ∈ Regex.findall (template self) ∧ name ∉ kwargs.*1)
  ∧ (∀ out, call_safe_substitute self kwargs ≠ Return out).
Proof.
  intros Hbind Hcov.
  rewrite call_bindable, safe_substitute_uncovered by done.
  split; [done|]. split; [by rewrite missing_empty_iff|]. split; [|done].
  intros name. unfold found_placeholders, keys.
  by rewrite elem_of_difference, !elem_of_list_to_set.
Qed.

Lemma safe_substitute_missing_values_witness :
  EmailTemplate.__init__ "@hostname@ @topic@ @body@"
  = Return Runs.three_placeholders
  ∧ call_safe_substitute Runs.three_placeholders
      [("hostname", "H"); ("topic", "T")]
    = Raise (Exc TemplateError
               [Text "Missing values for placeholders: "; Names {[ "body" ]}]).
Proof.
  split; [by vm_compute|].
  destruct (safe_substitute_missing_values Runs.three_placeholders
              [("hostname", "H"); ("topic", "T")]) as [Hraise _].
  - compute_done.
  - compute_done.
  - rewrite Hraise. by vm_compute.
Defined.

(** Refutes an occurrence [Hocc] of a pattern behind every way [Hsplit]
    of cutting a given text into [b1] and a rest. *)
Ltac no_occurrence Hsplit Hocc b1 :=
  destruct b1 as [|? b1];
  [ rewrite app_empty_l in Hsplit; simplify_eq; try by vm_compute in Hocc
  | rewrite app_cons in Hsplit;
    first [ discriminate Hsplit
          | injection Hsplit as <- Hsplit; no_occurrence Hsplit Hocc b1 ] ].

(** C6 (as stated) fails: the value given for [hostname] holds
    [@topic@]-shaped text, [@hostname@] occurs in the template, and the
    value does not stand in the output: the later replacement of [topic]
    rewrote it. *)
Lemma inserted_value_rewritten_by_later_key :
  contains (pattern "hostname") (template Runs.three_placeholders) = true
  ∧ safe_substitute Runs.three_placeholders
      [("hostname", "@topic@"); ("topic", "T"); ("body", "B")]
    = Return "T T B"
  ∧ ¬ ∃ out,
        safe_substitute Runs.three_placeholders
          [("hostname", "@topic@"); ("topic", "T"); ("body", "B")]
        = Return out
        ∧ contains "@topic@" out = true.
Proof.
  split; [by vm_compute|]. split; [by vm_compute|].
  intros (out & Hout & Hin). vm_compute in Hout.
  injection Hout as <-. by vm_compute in Hin.
Qed.

(** C6 (as amended): for a substitution map the method can be called
    with (no key twice, no key [self]), the replacement of a key is one
    pass over the text produced so far, which writes the value as it is
    and goes on behind it, so a value is never read again for its own key
    or for a key that came before. The value stands unchanged in the
    output whenever no key that comes later in the argument order has its
    [@key@] in the text after the insertion, which always holds for the
    last key. The turn of a later key leaves a value in place whenever no
    occurrence of that key's [@key@] touches it. An occurrence that
    touches the value need not change it: on ["@a@a@h@"] with [h] given
    as ["@b@"] and then [a] as ["X"], an [@a@] touches the inserted
    ["@b@"] and the result is ["Xa@b@"]. *)
Theorem value_inserted_verbatim :
  (∀ self kwargs1 key value kwargs2,
     let acc := foldl replace_step (template self) kwargs1 in
     bindable (kwargs1 ++ (key, value) :: kwargs2) →
     found_placeholders self ⊆ keys (kwargs1 ++ (key, value) :: kwargs2) →
     Forall (λ item,
               contains (pattern item.1) (replace acc (pattern key) value)
               = false)
            kwargs2 →
     ∃ out,
       call_safe_substitute self (kwargs1 ++ (key, value) :: kwargs2)
       = Return out
       ∧ Replaced (pattern key) value acc out
       ∧ (contains (pattern key) acc = true → contains value out = true))
  ∧ (∀ before value after item,
       ¬ touches (pattern item.1) before value after →
       replace_step (before +:+ value +:+ after) item
       = replace_step before item +:+ value +:+ replace_step after item)
  ∧ (touches (pattern "a") "@a@a" "@b@" ""
     ∧ replace_step "@a@a@h@" ("h", "@b@") = "@a@a" +:+ "@b@" +:+ ""
     ∧ call_safe_substitute (Build "@a@a@h@") [("h", "@b@"); ("a", "X")]
       = Return ("Xa" +:+ "@b@")).
Proof.
  split; [|split].
  - intros self kwargs1 key value kwargs2 acc Hbind Hcov Hlater.
    exists (replace acc (pattern key) value).
    assert (Replaced (pattern key) value acc (replace acc (pattern key) value))
      as Hpass by (rewrite pattern_cons; apply Replaced_replace).
    repeat split; [|done|].
    + rewrite call_bindable, safe_substitute_covered by done.
      rewrite foldl_app. simpl. fold acc.
      by rewrite replace_step_replace, foldl_absent.
    + rewrite pattern_cons in *. by apply Replaced_contains.
  - intros before value after item Hclear.
    rewrite !replace_step_replace, pattern_cons in *.
    by apply replace_around.
  - split; [|split; by vm_compute].
    left. exists "@a", "@a", "b@". split; [done|]. split; [done|].
    vm_compute. lia.
Qed.

Lemma value_inserted_verbatim_witness :
  (∃ out,
     call_safe_substitute Runs.colon_template
       ([("hostname", "H"); ("topic", "Top")]
          ++ ("body", "cost is @5@") :: [("signature", "ops")])
     = Return out
     ∧ Replaced "@body@" "cost is @5@" "H:Top:@body@" out
     ∧ (contains "@body@" "H:Top:@body@" = true →
        contains "cost is @5@" out = true))
  ∧ replace_step ("H:" +:+ "a@b" +:+ ":@body@") ("body", "B")
    = replace_step "H:" ("body", "B") +:+ "a@b"
      +:+ replace_step ":@body@" ("body", "B").
Proof.
  split.
  - apply (proj1 value_inserted_verbatim Runs.colon_template
             [("hostname", "H"); ("topic", "Top")] "body" "cost is @5@"
             [("signature", "ops")]).
    + compute_done.
    + compute_done.
    + repeat constructor.
  - apply (proj1 (proj2 value_inserted_verbatim)
             "H:" "a@b" ":@body@" ("body", "B")).
    intros [(b1 & b2 & rest & Hsplit & Hocc & _)
           |(v1 & c & v2 & rest & Hsplit & Hocc)].
    + no_occurrence Hsplit Hocc b1.
    + no_occurrence Hsplit Hocc v1.
Defined.

(** C9 (as stated) fails: [@x@] does not occur in the template and the
    other keys cover its placeholders, yet the extra key [x] changes the
    output. *)
Lemma extra_key_changes_output :
  contains (pattern "x") (template Runs.three_placeholders) = false
  ∧ found_placeholders Runs.three_placeholders
      ⊆ keys [("hostname", "@x@"); ("topic", "T"); ("body", "B")]
  ∧ safe_substitute Runs.three_placeholders
      [("hostname", "@x@"); ("topic", "T"); ("body", "B")]
    = Return "@x@ T B"
  ∧ safe_substitute Runs.three_placeholders
      [("hostname", "@x@"); ("topic", "T"); ("body", "B"); ("x", "Y")]
    = Return "Y T B"
  ∧ safe_substitute Runs.three_placeholders
      [("hostname", "@x@"); ("topic", "T"); ("body", "B"); ("x", "Y")]
    ≠ safe_substitute Runs.three_placeholders
        [("hostname", "@x@"); ("topic", "T"); ("body", "B")].
Proof.
  split; [by vm_compute|]. split; [compute_done|].
  split; [by vm_compute|]. split; [by vm_compute|].
  vm_compute. discriminate.
Qed.

(** C9 (as amended): when the map with the extra key is one the method
    can be called with (no key twice, no key [self]) and the other keys
    cover the template's placeholders, the extra key raises no error, and
    it leaves the output as it is without that key whenever its [@key@]
    does not occur in the text produced by the keys before it (for an
    extra key given first, this text is the template). An extra key
    [self], or one that repeats a key, makes the call raise
    [TypeError]. *)
Theorem extra_key_ignored self kwargs1 key value kwargs2 :
  found_placeholders self ⊆ keys (kwargs1 ++ kwargs2) →
  (bindable (kwargs1 ++ (key, value) :: kwargs2) →
   (∃ out,
      call_safe_substitute self (kwargs1 ++ (key, value) :: kwargs2)
      = Return out)
   ∧ (contains (pattern key) (foldl replace_step (template self) kwargs1)
      = false →
      call_safe_substitute self (kwargs1 ++ (key, value) :: kwargs2)
      = call_safe_substitute self (kwargs1 ++ kwargs2)))
  ∧ (¬ bindable (kwargs1 ++ (key, value) :: kwargs2) →
     ∃ msg,
       call_safe_substitute self (kwargs1 ++ (key, value) :: kwargs2)
       = Raise (Exc TypeError msg)).
Proof.
  intros Hcov. split; [|apply call_unbindable]. intros Hbind.
  assert (found_placeholders self ⊆ keys (kwargs1 ++ (key, value) :: kwargs2))
    as Hcov'.
  { intros name Hname. apply Hcov in Hname.
    rewrite keys_app, keys_cons. rewrite keys_app in Hname.
    apply elem_of_union in Hname as [?|?]; apply elem_of_union; [by left|].
    right. apply elem_of_union. by right. }
  rewrite !call_bindable by eauto using bindable_remove.
  rewrite !safe_substitute_covered by done. split; [by eexists|].
  intros Habsent. rewrite !foldl_app. simpl.
  by rewrite replace_step_absent.
Qed.

Lemma extra_key_ignored_witness :
  ((∃ out,
      call_safe_substitute Runs.colon_template
        ([("hostname", "H")]
           ++ ("signature", "ops") :: [("topic", "Top"); ("body", "B")])
      = Return out)
   ∧ (contains (pattern "signature")
        (foldl replace_step (template Runs.colon_template) [("hostname", "H")])
      = false →
      call_safe_substitute Runs.colon_template
        ([("hostname", "H")]
           ++ ("signature", "ops") :: [("topic", "Top"); ("body", "B")])
      = call_safe_substitute Runs.colon_template
          ([("hostname", "H")] ++ [("topic", "Top"); ("body", "B")])))
  ∧ ∃ msg,
      call_safe_substitute Runs.colon_template
        ([("hostname", "H")]
           ++ ("self", "ops") :: [("topic", "Top"); ("body", "B")])
      = Raise (Exc TypeError msg).
Proof.
  split.
  - apply (proj1 (extra_key_ignored Runs.colon_template
                    [("hostname", "H")] "signature" "ops"
                    [("topic", "Top"); ("body", "B")]
                    ltac:(compute_done))).
    compute_done.
  - apply (proj2 (extra_key_ignored Runs.colon_template
                    [("hostname", "H")] "self" "ops"
                    [("topic", "Top"); ("body", "B")]
                    ltac:(compute_done))).
    compute_done.
Defined.

(** C10: [safe_substitute] takes the keys in the order of the keyword
    arguments, each replacement reading the text the replacements before
    it produced; so text put in for an earlier key can be rewritten for a
    later key. On ["@hostname@ @topic@ @body@"] with hostname ["@topic@"],
    topic ["T"], body ["B"] in this order the result is ["T T B"], not
    ["@topic@ T B"] (which is the result when hostname comes last). *)
Theorem safe_substitute_follows_argument_order :
  (∀ self kwargs1 kwargs2,
     found_placeholders self ⊆ keys (kwargs1 ++ kwargs2) →
     safe_substitute self (kwargs1 ++ kwargs2)
     = Return (foldl replace_step
                 (foldl replace_step (template self) kwargs1) kwargs2))
  ∧ (∀ acc key value,
       Replaced (pattern key) value acc (replace_step acc (key, value)))
  ∧ safe_substitute Runs.three_placeholders
      [("hostname", "@topic@"); ("topic", "T"); ("body", "B")]
    = Return "T T B"
  ∧ safe_substitute Runs.three_placeholders
      [("topic", "T"); ("body", "B"); ("hostname", "@topic@")]
    = Return "@topic@ T B".
Proof.
  split; [|split; [apply replace_step_Replaced|split; by vm_compute]].
  intros self kwargs1 kwargs2 Hcov.
  by rewrite safe_substitute_covered, foldl_app.
Qed.

Lemma safe_substitute_follows_argument_order_witness :
  safe_substitute Runs.three_placeholders
    ([("hostname", "@topic@")] ++ [("topic", "T"); ("body", "B")])
  = Return (foldl replace_step
              (foldl replace_step "@hostname@ @topic@ @body@"
                 [("hostname", "@topic@")])
              [("topic", "T"); ("body", "B")]).
Proof.
  apply (proj1 safe_substitute_follows_argument_order Runs.three_placeholders).
  compute_done.
Defined.

End SubstituteClaims.

(** ** Placeholders found in a template *)

Section FindallFacts.

Import Str Regex EmailTemplate.

Lemma match_word_at_inv s name rest :
  match_word_at s = Some (name, rest) →
  is_name name = true ∧ s = name +:+ "@" +:+ rest.
Proof.
  revert name rest; induction s as [|c s IH]; intros name rest; [done|].
  cbn [match_word_at]. destruct (Char.is_word c) eqn:Hc; [|done].
  destruct (match_word_at s) as [[w r]|] eqn:Hs.
  - intros [= <- <-]. destruct (IH _ _ eq_refl) as [Hw ->].
    split; [|done]. unfold is_name in *. apply andb_true_iff in Hw as [_ Hw].
    simpl. by rewrite Hc, Hw.
  - destruct s as [|d s']; [done|].
    unfold Char.is_at. case_bool_decide as Hd; [|done].
    intros [= <- <-]. subst d. split; [|done].
    unfold is_name. simpl. by rewrite Hc.
Qed.






Lemma validate_Return_iff self :
  _validate_template self = Return ()
  ↔ found_placeholders self ≠ ∅
    ∧ required_placeholders ⊆ found_placeholders self.
Proof.
  unfold _validate_template.
  destruct (decide (found_placeholders self = ∅)) as [Hempty|Hfound].
  - split; [done|]. by intros [? _].
  - destruct (decide (required_placeholders ∖ found_placeholders self = ∅))
      as [Hmiss|Hmiss].
    + split; [|done]. intros _. split; [done|]. by apply missing_empty_iff.
    + split; [done|]. intros [_ Hsub]. by apply missing_empty_iff in Hsub.
Qed.


End FindallFacts.

(** ** Reading the template, delivery, and the whole run *)

Section RunFacts.

Import EmailTemplate.

Ltac eff_unfold :=
  unfold try_except, mbind, Eff_bind, mret, Eff_ret, raise, emit, lift in *.

(** The class test follows the chain of base classes to its end. *)
Lemma issubclass_base c b target :
  base c = Some b → issubclass b target = true → issubclass c target = true.
Proof. destruct c, target; intros [= <-]; by vm_compute. Qed.

Lemma issubclass_refl c : issubclass c c = true.
Proof. by destruct c. Qed.

Lemma init_raises_TemplateError T e :
  __init__ T = Raise e → ∃ msg, e = Exc TemplateError msg.
Proof.
  unfold __init__, _validate_template.
  repeat case_decide; intros [= <-]; by eexists.
Qed.


Lemma read_template_not_file w path tr :
  isfile w path = false →
  read_template w path tr
  = (Raise (Exc FileNotFoundError [Text ("Template file not found: " +:+ path)]), tr).
Proof. unfold read_template. by intros ->. Qed.

Lemma read_template_read_fails w path tr e :
  isfile w path = true → open_read w path = ReadFails e →
  read_template w path tr
  = (if isinstance e OSError || isinstance e UnicodeDecodeError
     then Raise (Exc TemplateError
                   (prepend "Error reading template file: " (exn_str e)))
     else Raise e, tr).
Proof.
  unfold read_template. intros -> ->. eff_unfold. simpl.
  rewrite orb_false_r. by destruct (_ || _).
Qed.

Lemma read_template_text w path tr contents :
  isfile w path = true → open_read w path = FileText contents →
  read_template w path tr = (__init__ contents, tr).
Proof.
  unfold read_template. intros -> ->. eff_unfold. simpl.
  destruct (__init__ contents) as [self|e] eqn:Hinit; [done|].
  by apply init_raises_TemplateError in Hinit as [msg ->].
Qed.

Lemma send_email_no_config w content tr :
  isfile w (msmtprc w) = false →
  send_email w content tr
  = (Raise (Exc RuntimeError
              [Text ("msmtp config not found: " +:+ msmtprc w)]), tr).
Proof. unfold send_email. by intros ->. Qed.

Lemma send_email_with_config w content tr :
  isfile w (msmtprc w) = true →
  send_email w content tr
  = match msmtp w (msmtp_argv (msmtprc w)) content with
    | PopenFails e =>
        (if isinstance e SubprocessError
         then Return (false, Some (exn_str e)) else Raise e, tr)
    | CommunicateFails e =>
        (if isinstance e SubprocessError
         then Return (false, Some (exn_str e)) else Raise e,
         tr ++ [Popen (msmtp_argv (msmtprc w)) content])
    | Exited returncode stdout stderr =>
        (Return (if bool_decide (returncode ≠ 0)
                 then (false, Some [Text (Str.strip stderr)])
                 else (true, None)),
         tr ++ [Popen (msmtp_argv (msmtprc w)) content])
    end.
Proof.
  unfold send_email. intros ->. eff_unfold. simpl.
  destruct (msmtp w _ content) as [e|e|returncode stdout stderr]; simpl.
  - rewrite orb_false_r. by destruct (isinstance e SubprocessError).
  - rewrite orb_false_r. by destruct (isinstance e SubprocessError).
  - by case_bool_decide.
Qed.

(** What [send_email] does when the agent runs to its end: success is the
    exit status zero, and a returned pair never holds both [true] and an
    error text. *)
Lemma send_email_exited w content tr returncode stdout stderr :
  isfile w (msmtprc w) = true →
  msmtp w (msmtp_argv (msmtprc w)) content = Exited returncode stdout stderr →
  (returncode = 0 →
   send_email w content tr
   = (Return (true, None), tr ++ [Popen (msmtp_argv (msmtprc w)) content]))
  ∧ (returncode ≠ 0 →
     send_email w content tr
     = (Return (false, Some [Text (Str.strip stderr)]),
        tr ++ [Popen (msmtp_argv (msmtprc w)) content])).
Proof.
  intros Hcfg Hrun. rewrite send_email_with_config, Hrun by done.
  split; intros Hrc; by case_bool_decide.
Qed.

Lemma send_email_true_no_error w content tr error tr' :
  send_email w content tr = (Return (true, error), tr') →
  error = None
  ∧ ∃ stdout stderr,
      msmtp w (msmtp_argv (msmtprc w)) content = Exited 0 stdout stderr.
Proof.
  destruct (isfile w (msmtprc w)) eqn:Hcfg.
  - rewrite send_email_with_config by done.
    destruct (msmtp w _ content) as [e|e|returncode stdout stderr].
    + by destruct (isinstance e SubprocessError).
    + by destruct (isinstance e SubprocessError).
    + case_bool_decide as Hrc; [done|]. intros [= <- _]. split; [done|].
      subst returncode. by eexists _, _.
  - by rewrite send_email_no_config.
Qed.

Lemma main_parser_exit w tr status :
  parse_args w = ParserExit status → main w tr = (Raise (SystemExit status), tr).
Proof. unfold main. intros ->. by eff_unfold. Qed.

(** The keyword arguments of [main] can be bound: the call of
    [safe_substitute] in [main] runs the body on them. *)
Lemma main_kwargs_bindable w args : EmailTemplate.bindable (main_kwargs w args).
Proof. unfold main_kwargs. split; compute_done. Qed.

Lemma call_main_kwargs w args template :
  EmailTemplate.call_safe_substitute template (main_kwargs w args)
  = EmailTemplate.safe_substitute template (main_kwargs w args).
Proof. apply call_bindable, main_kwargs_bindable. Qed.

Lemma main_parsed w tr args :
  parse_args w = Parsed args →
  main w tr
  = match read_template w (template_path w) (tr ++ input_log w args) with
    | (Raise e, tr1) => handled e tr1
    | (Return template, tr1) =>
        match safe_substitute template (main_kwargs w args) with
        | Raise e => handled e tr1
        | Return email_content =>
            match send_email w email_content tr1 with
            | (Raise e, tr2) => handled e tr2
            | (Return (true, _), tr2) =>
                (Return 0, tr2 ++ [Log INFO [Text "Email sent successfully"]])
            | (Return (false, error), tr2) =>
                handled (Exc RuntimeError
                           (prepend "Failed to send email: "
                              (format_optional error))) tr2
            end
        end
    end.
Proof.
  unfold main. intros ->. eff_unfold.
  cbn [prepend]. rewrite <- !(assoc_L (++) tr). cbn [app].
  change [_; _; _; _] with (input_log w args).
  change (path_join _ _) with (template_path w).
  destruct (read_template _ _ _) as [[template|e] tr1]; [|unfold handled; simpl].
  - fold (main_kwargs w args). rewrite call_main_kwargs.
    destruct (safe_substitute _ _) as [email_content|e]; [|unfold handled; simpl].
    + destruct (send_email _ _ _) as [[[[] error]|e] tr2]; unfold handled; simpl.
      * done.
      * by rewrite <- (assoc_L (++)).
      * rewrite orb_false_r. destruct (isinstance e Exception); [|done].
        by rewrite <- (assoc_L (++)).
    + rewrite orb_false_r. destruct (isinstance e Exception); [|done].
      by rewrite <- (assoc_L (++)).
  - rewrite orb_false_r. destruct (isinstance e Exception); [|done].
    by rewrite <- (assoc_L (++)).
Qed.

Lemma handled_Exception c msg tr :
  issubclass c Exception = true →
  handled (Exc c msg) tr = (Return 1, tr ++ failure_report (Exc c msg)).
Proof. unfold handled; simpl. by intros ->. Qed.





(** *** The runs of [main], one lemma per way through it *)

Lemma run_missing_template w args :
  parse_args w = Parsed args →
  isfile w (template_path w) = false →
  run w
  = (Return 1,
     input_log w args
       ++ failure_report
            (Exc FileNotFoundError
               [Text ("Template file not found: " +:+ template_path w)])).
Proof.
  intros Hargs Hfile. unfold run.
  by rewrite (main_parsed _ _ _ Hargs), read_template_not_file.
Qed.



Lemma run_rendered w args email_content :
  parse_args w = Parsed args →
  rendered w args email_content →
  run w
  = match send_email w email_content (input_log w args) with
    | (Raise e, tr) => handled e tr
    | (Return (true, _), tr) =>
        (Return 0, tr ++ [Log INFO [Text "Email sent successfully"]])
    | (Return (false, error), tr) =>
        handled (Exc RuntimeError
                   (prepend "Failed to send email: " (format_optional error))) tr
    end.
Proof.
  intros Hargs (contents & template & Hfile & Hread & Hinit & Hsub). unfold run.
  rewrite (main_parsed _ _ _ Hargs), (read_template_text _ _ _ contents) by done.
  by rewrite Hinit, Hsub.
Qed.

Lemma run_missing_config w args email_content :
  parse_args w = Parsed args →
  rendered w args email_content →
  isfile w (msmtprc w) = false →
  run w
  = (Return 1,
     input_log w args
       ++ failure_report
            (Exc RuntimeError
               [Text ("msmtp config not found: " +:+ msmtprc w)])).
Proof.
  intros Hargs Hrendered Hcfg.
  by rewrite (run_rendered _ _ _ Hargs Hrendered), send_email_no_config.
Qed.

Lemma run_agent_exited w args email_content returncode stdout stderr :
  parse_args w = Parsed args →
  rendered w args email_content →
  isfile w (msmtprc w) = true →
  msmtp w (msmtp_argv (msmtprc w)) email_content
  = Exited returncode stdout stderr →
  run w
  = if bool_decide (returncode = 0)
    then (Return 0,
          input_log w args
            ++ [Popen (msmtp_argv (msmtprc w)) email_content;
                Log INFO [Text "Email sent successfully"]])
    else (Return 1,
          input_log w args
            ++ Popen (msmtp_argv (msmtprc w)) email_content
               :: failure_report
                    (Exc RuntimeError
                       [Text ("Failed to send email: " +:+ Str.strip stderr)])).
Proof.
  intros Hargs Hrendered Hcfg Hrun.
  rewrite (run_rendered _ _ _ Hargs Hrendered), send_email_with_config by done.
  rewrite Hrun. destruct (decide (returncode = 0)) as [->|Hrc].
  - rewrite (bool_decide_eq_true_2 (0 = 0)) by done.
    rewrite (bool_decide_eq_false_2 (0 ≠ 0)) by (by intros []).
    by rewrite <- (assoc_L (++)).
  - rewrite (bool_decide_eq_false_2 (returncode = 0)) by done.
    rewrite (bool_decide_eq_true_2 (returncode ≠ 0)) by done.
    rewrite handled_Exception by done. by rewrite <- (assoc_L (++)).
Qed.

Lemma run_without_config w args :
  parse_args w = Parsed args →
  isfile w (msmtprc w) = false →
  ∃ e, run w = handled e (input_log w args).
Proof.
  intros Hargs Hcfg. unfold run. rewrite (main_parsed _ _ _ Hargs), app_nil_l.
  destruct (isfile w (template_path w)) eqn:Hfile;
    [|rewrite read_template_not_file by done; by eexists].
  destruct (open_read w (template_path w)) as [contents|e] eqn:Hread;
    [|rewrite (read_template_read_fails _ _ _ e) by done;
      destruct (_ || _); by eexists].
  rewrite (read_template_text _ _ _ contents) by done.
  destruct (__init__ contents) as [template|e]; [|by eexists].
  destruct (safe_substitute template _) as [email_content|e]; [|by eexists].
  rewrite send_email_no_config by done. by eexists.
Qed.

Lemma input_log_no_Popen w args argv stdin :
  Popen argv stdin ∉ input_log w args.
Proof. unfold input_log. rewrite !not_elem_of_cons. by repeat split; [..|apply not_elem_of_nil]. Qed.

Lemma handled_no_Popen e tr argv stdin :
  Popen argv stdin ∉ tr → Popen argv stdin ∉ (handled e tr).2.
Proof.
  intros Hout. unfold handled, failure_report.
  destruct (isinstance e Exception); simpl; [|done].
  rewrite elem_of_app, !elem_of_cons, elem_of_nil.
  by intros [?|[?|[?|[]]]].
Qed.

(** *** The claims about reading, delivery and the exit code *)

(** C8 (as stated) fails: the template file exists and is read and decoded
    without error, yet [read_template] returns no [EmailTemplate]: the
    text has no placeholder and the constructor raises. *)
Lemma read_template_rejects_plain_text :
  isfile Runs.plain_template (template_path Runs.plain_template) = true
  ∧ open_read Runs.plain_template (template_path Runs.plain_template)
    = FileText "Subject: hello"
  ∧ read_template Runs.plain_template (template_path Runs.plain_template) []
    = (Raise (Exc TemplateError
                [Text "Template contains no valid placeholders"]), [])
  ∧ ¬ ∃ template tr,
        read_template Runs.plain_template
          (template_path Runs.plain_template) []
        = (Return template, tr).
Proof.
  split; [by vm_compute|]. split; [by vm_compute|].
  assert (read_template Runs.plain_template
            (template_path Runs.plain_template) []
          = (Raise (Exc TemplateError
                      [Text "Template contains no valid placeholders"]), []))
    as Hraise by by vm_compute.
  split; [done|]. intros (template & tr & Hreturn). by rewrite Hraise in Hreturn.
Qed.

(** C8 (as amended): [read_template] raises [FileNotFoundError] with the
    path in its text when the path is no existing regular file (then
    [main] returns 1 after reporting this text); when the file exists but
    reading or decoding raises an [OSError] or a [UnicodeDecodeError], it
    raises a [TemplateError] whose text wraps the text of that error;
    otherwise it constructs an [EmailTemplate] from the full contents: it
    returns the template holding these contents when the construction
    succeeds and lets the [TemplateError] of the construction through
    when it fails. *)
Theorem read_template_outcome (w : World) (path : string) (tr : list event) :
  (isfile w path = false →
   read_template w path tr
   = (Raise (Exc FileNotFoundError
               [Text ("Template file not found: " +:+ path)]), tr))
  ∧ (∀ e,
       isfile w path = true → open_read w path = ReadFails e →
       isinstance e OSError || isinstance e UnicodeDecodeError = true →
       read_template w path tr
       = (Raise (Exc TemplateError
                   (prepend "Error reading template file: " (exn_str e))), tr))
  ∧ (∀ contents,
       isfile w path = true → open_read w path = FileText contents →
       read_template w path tr = (__init__ contents, tr)
       ∧ (∀ self, __init__ contents = Return self → template self = contents)
       ∧ (∀ e, __init__ contents = Raise e → isinstance e TemplateError = true))
  ∧ (∀ args,
       parse_args w = Parsed args → isfile w (template_path w) = false →
       run w
       = (Return 1,
          input_log w args
            ++ [Log ERROR [Text ("Script failed: Template file not found: "
                                 +:+ template_path w)];
                PrintStderr [Text ("Error: Template file not found: "
                                   +:+ template_path w)]])).
Proof.
  split; [apply read_template_not_file|].
  split; [|split].
  - intros e Hfile Hread Hcaught.
    by rewrite (read_template_read_fails _ _ _ e), Hcaught.
  - intros contents Hfile Hread.
    split; [by apply read_template_text|]. split.
    + unfold __init__. intros self.
      destruct (_validate_template _); by intros [= <-].
    + by intros e [msg ->]%init_raises_TemplateError.
  - intros args Hargs Hfile. by rewrite (run_missing_template _ args).
Qed.

Lemma read_template_outcome_witness :
  read_template Runs.scenario_D "/opt/notify/template.txt" []
  = (Raise (Exc FileNotFoundError
              [Text "Template file not found: /opt/notify/template.txt"]), [])
  ∧ read_template Runs.undecodable_template "/opt/notify/template.txt" []
    = (Raise (Exc TemplateError
                [Text "Error reading template file: 'utf-8' codec can't decode byte 0xff in position 0: invalid start byte"]),
       [])
  ∧ read_template Runs.scenario_A "/opt/notify/template.txt" []
    = (__init__ Runs.template_A, [])
  ∧ run Runs.scenario_D
    = (Return 1,
       input_log Runs.scenario_D Runs.args_A
         ++ [Log ERROR [Text "Script failed: Template file not found: /opt/notify/template.txt"];
             PrintStderr [Text "Error: Template file not found: /opt/notify/template.txt"]]).
Proof.
  destruct (read_template_outcome Runs.scenario_D "/opt/notify/template.txt" [])
    as (Hmissing & _ & _ & Hrun).
  destruct (read_template_outcome Runs.undecodable_template
              "/opt/notify/template.txt" []) as (_ & Hread & _ & _).
  destruct (read_template_outcome Runs.scenario_A "/opt/notify/template.txt" [])
    as (_ & _ & Htext & _).
  split; [by apply Hmissing|]. split; [|split].
  - by apply (Hread (Exc UnicodeDecodeError
                       [Text "'utf-8' codec can't decode byte 0xff in position 0: invalid start byte"])).
  - by apply (Htext Runs.template_A).
  - by apply (Hrun Runs.args_A).
Defined.

(** C7: when the agent's configuration file does not exist, [send_email]
    raises a [RuntimeError] about the configuration, without starting a
    child process and without returning a (false, error) pair; [main]
    then returns 1, and no run of the program starts a child process. *)
Theorem missing_config_is_fatal (w : World) :
  isfile w (msmtprc w) = false →
  (∀ content tr,
     send_email w content tr
     = (Raise (Exc RuntimeError
                 [Text ("msmtp config not found: " +:+ msmtprc w)]), tr))
  ∧ (∀ args email_content,
       parse_args w = Parsed args → rendered w args email_content →
       run w
       = (Return 1,
          input_log w args
            ++ [Log ERROR [Text ("Script failed: msmtp config not found: "
                                 +:+ msmtprc w)];
                PrintStderr [Text ("Error: msmtp config not found: "
                                   +:+ msmtprc w)]]))
  ∧ (∀ argv stdin, Popen argv stdin ∉ (run w).2).
Proof.
  intros Hcfg. split; [|split].
  - intros content tr. by apply send_email_no_config.
  - intros args email_content Hargs Hrendered.
    by rewrite (run_missing_config _ args email_content).
  - intros argv stdin. destruct (parse_args w) as [args|status] eqn:Hargs.
    + destruct (run_without_config _ _ Hargs Hcfg) as [e ->].
      apply handled_no_Popen, input_log_no_Popen.
    + unfold run. rewrite (main_parser_exit _ _ status) by done.
      apply not_elem_of_nil.
Qed.

Lemma missing_config_is_fatal_witness :
  (∀ content tr,
     send_email Runs.scenario_B content tr
     = (Raise (Exc RuntimeError
                 [Text "msmtp config not found: /home/ops/.msmtprc"]), tr))
  ∧ run Runs.scenario_B
    = (Return 1,
       input_log Runs.scenario_B Runs.args_A
         ++ [Log ERROR [Text "Script failed: msmtp config not found: /home/ops/.msmtprc"];
             PrintStderr [Text "Error: msmtp config not found: /home/ops/.msmtprc"]])
  ∧ (∀ argv stdin, Popen argv stdin ∉ (run Runs.scenario_B).2).
Proof.
  destruct (missing_config_is_fatal Runs.scenario_B) as (Hsend & Hrun & Hquiet);
    [by vm_compute|].
  split; [done|]. split; [|done].
  apply (Hrun Runs.args_A "From: a@x
To: b@y
Subject: Disk full

Check /var on node1"); [done|].
  exists Runs.template_A, (Build Runs.template_A). by vm_compute.
Defined.






(** C2 (the code at the failing input): with the configuration in place
    and no [msmtp] executable, [Popen] raises [FileNotFoundError];
    [send_email] returns no (false, text) pair but lets the exception
    through, and [main] reports its bare text. *)
Theorem send_email_lets_OSError_through :
  (∀ content tr,
     send_email Runs.msmtp_not_installed content tr
     = (Raise (Exc FileNotFoundError
                 [Text "[Errno 2] No such file or directory: 'msmtp'"]), tr))
  ∧ run Runs.msmtp_not_installed
    = (Return 1,
       input_log Runs.msmtp_not_installed Runs.args_A
         ++ [Log ERROR [Text "Script failed: [Errno 2] No such file or directory: 'msmtp'"];
             PrintStderr [Text "Error: [Errno 2] No such file or directory: 'msmtp'"]]).
Proof.
  split; [|by vm_compute].
  intros content tr. by rewrite send_email_with_config.
Qed.

(** The scenarios of the specification, run. *)
Example scenario_A_delivers :
  run Runs.scenario_A
  = (Return 0,
     input_log Runs.scenario_A Runs.args_A
       ++ [Popen ["msmtp"; "--file"; "/home/ops/.msmtprc";
                  "--read-envelope-from"; "--read-recipients"]
             "From: a@x
To: b@y
Subject: Disk full

Check /var on node1";
           Log INFO [Text "Email sent successfully"]]).
Proof. by vm_compute. Qed.

Example scenario_C_reports_stderr :
  send_email Runs.scenario_C "x" []
  = (Return (false, Some [Text "relay timeout"]),
     [Popen (msmtp_argv "/home/ops/.msmtprc") "x"])
  ∧ run Runs.scenario_C
    = (Return 1,
       input_log Runs.scenario_C Runs.args_A
         ++ [Popen (msmtp_argv "/home/ops/.msmtprc")
               "From: a@x
To: b@y
Subject: Disk full

Check /var on node1";
             Log ERROR [Text "Script failed: Failed to send email: relay timeout"];
             PrintStderr [Text "Error: Failed to send email: relay timeout"]]).
Proof. split; by vm_compute. Qed.

End RunFacts.

(** * Further properties *)

(** ** The scan of [re.findall], equation by equation *)

Section FindallEquations.

Import Str Regex EmailTemplate Shape.

Lemma is_at_true c : Char.is_at c = true ↔ c = "@"%char.
Proof. unfold Char.is_at. by rewrite bool_decide_eq_true. Qed.

Lemma is_word_not_at c : Char.is_word c = true → Char.is_at c = false.
Proof.
  intros Hword. destruct (Char.is_at c) eqn:Hat; [|done].
  apply is_at_true in Hat as ->. by vm_compute in Hword.
Qed.

Lemma all_word_no_at s : all_word s = true → no_at s = true.
Proof.
  induction s as [|c s IH]; [done|]. simpl.
  intros [Hc Hs]%andb_true_iff. by rewrite (is_word_not_at c), IH.
Qed.

Lemma is_name_all_word name : is_name name = true → all_word name = true.
Proof. unfold is_name. by intros [_ ?]%andb_true_iff. Qed.

Lemma is_name_no_at name : is_name name = true → no_at name = true.
Proof. intros ?%is_name_all_word. by apply all_word_no_at. Qed.

Lemma all_word_app s rest :
  all_word (s +:+ rest) = all_word s && all_word rest.
Proof.
  induction s as [|c s IH]; [done|].
  rewrite app_cons. simpl. by rewrite IH, andb_assoc.
Qed.

Lemma findall_from_skip k s : findall_from k s = findall (drop k s).
Proof.
  revert k; induction s as [|c s IH]; intros [|k]; try done.
  cbn [findall_from drop]. apply IH.
Qed.

Lemma match_word_at_not_word c s :
  Char.is_word c = false → match_word_at (String c s) = None.
Proof. cbn [match_word_at]. by intros ->. Qed.

(** The group [(\w+)] takes a whole name in front of an [@]. *)
Lemma match_word_at_name name rest :
  is_name name = true →
  match_word_at (name +:+ "@" +:+ rest) = Some (name, rest).
Proof.
  intros Hname. pose proof (is_name_all_word _ Hname) as Hword.
  destruct name as [|c name]; [done|]. clear Hname.
  revert c Hword; induction name as [|d name IH]; intros c Hword.
  - simpl in Hword. apply andb_true_iff in Hword as [Hc _].
    rewrite app_cons, app_empty_l. cbn [match_word_at]. rewrite Hc.
    change ("@" +:+ rest) with (String "@" rest).
    by rewrite match_word_at_not_word.
  - cbn [all_word] in Hword. apply andb_true_iff in Hword as [Hc Hword].
    rewrite app_cons. cbn [match_word_at]. by rewrite Hc, (IH d Hword).
Qed.

Lemma drop_name name rest :
  drop (String.length name + 1) (name +:+ "@" +:+ rest) = rest.
Proof. induction name as [|c name IH]; [done|]. by rewrite app_cons. Qed.

(** A placeholder at the start of the text is found, and the scan goes on
    behind it. *)
Lemma findall_placeholder name rest :
  is_name name = true →
  findall (pattern name +:+ rest) = name :: findall rest.
Proof.
  intros Hname. unfold pattern. rewrite !app_assoc_str.
  change ("@" +:+ name +:+ "@" +:+ rest)
    with (String "@" (name +:+ "@" +:+ rest)).
  unfold findall. cbn [findall_from match_placeholder].
  replace (Char.is_at "@") with true by done.
  rewrite match_word_at_name by done.
  by rewrite findall_from_skip, drop_name.
Qed.

(** Where no placeholder starts, the scan moves on by one character. *)
Lemma findall_step c s :
  match_placeholder (String c s) = None →
  findall (String c s) = findall s.
Proof. unfold findall. cbn [findall_from]. by intros ->. Qed.

Lemma findall_no_at s rest :
  no_at s = true → findall (s +:+ rest) = findall rest.
Proof.
  induction s as [|c s IH]; [done|]. simpl.
  intros [Hc Hs]%andb_true_iff. apply negb_true_iff in Hc.
  rewrite app_cons, findall_step; [by apply IH|].
  cbn [match_placeholder]. by rewrite Hc.
Qed.

End FindallEquations.

(** ** Templates of the usual shape *)

Section ShapeFacts.

Import Str Regex EmailTemplate Shape Spec.
Implicit Types (segs : list segment) (kwargs : list (string * string)).

Lemma app_empty_r s : s +:+ "" = s.
Proof. induction s as [|c s IH]; [done|]. by rewrite app_cons, IH. Qed.

(** A text without [@] in front of a pattern that ends at its first [@]:
    the pattern runs through the whole text. *)
Lemma startswith_through s rest w :
  no_at s = true →
  startswith (s +:+ rest) (w +:+ "@") = true →
  ∃ w', w = s +:+ w' ∧ startswith rest (w' +:+ "@") = true.
Proof.
  revert w; induction s as [|c s IH]; intros w Hs Hstart.
  - by exists w.
  - simpl in Hs. apply andb_true_iff in Hs as [Hc Hs].
    apply negb_true_iff in Hc. rewrite app_cons in Hstart.
    destruct w as [|d w].
    + rewrite app_empty_l in Hstart.
      change "@" with (String "@" "") in Hstart.
      rewrite startswith_cons in Hstart.
      apply andb_true_iff in Hstart as [Heq _].
      apply bool_decide_eq_true in Heq as <-. done.
    + rewrite app_cons, startswith_cons in Hstart.
      apply andb_true_iff in Hstart as [Heq Hstart].
      apply bool_decide_eq_true in Heq as ->.
      destruct (IH _ Hs Hstart) as (w' & -> & Hrest). by exists w'.
Qed.

Lemma startswith_empty_text d old : startswith "" (String d old) = false.
Proof. reflexivity. Qed.

(** Behind an [@], a well-formed template does not go on with a word and
    another [@]. *)
Lemma no_word_then_at segs w :
  wf_from false segs = true → all_word w = true →
  startswith (flatten segs) (w +:+ "@") = false.
Proof.
  revert w; induction segs as [|[text| |name] segs IH]; intros w Hwf Hw;
    cbn [wf_from flatten] in *.
  - by destruct w.
  - apply andb_true_iff in Hwf as [Htext Hwf].
    destruct (startswith (text +:+ flatten segs) (w +:+ "@")) eqn:Hstart;
      [|done].
    destruct (startswith_through _ _ _ Htext Hstart) as (w' & -> & Hrest).
    rewrite all_word_app in Hw. apply andb_true_iff in Hw as [Hw1 Hw2].
    unfold has_nonword in Hwf. rewrite Hw1 in Hwf. simpl in Hwf.
    by rewrite (IH w') in Hrest.
  - done.
  - by rewrite andb_false_r in Hwf.
Qed.

Lemma no_at_not_at c s : no_at (String c s) = true → c ≠ "@"%char.
Proof.
  simpl. intros [Hc _]%andb_true_iff Heq. subst c. done.
Qed.

(** The pattern of a name starts a text only with this name's
    placeholder. *)
Lemma startswith_pattern_inv name key rest :
  no_at name = true → no_at key = true →
  startswith (pattern name +:+ rest) (pattern key) = true → key = name.
Proof.
  intros Hname Hkey. unfold pattern. rewrite !app_assoc_str.
  change ("@" +:+ name +:+ "@" +:+ rest)
    with (String "@" (name +:+ "@" +:+ rest)).
  change ("@" +:+ key +:+ "@") with (String "@" (key +:+ "@")).
  rewrite startswith_cons. intros [_ Hstart]%andb_true_iff.
  destruct (startswith_through _ _ _ Hname Hstart) as (w' & -> & Hrest).
  destruct w' as [|c w']; [apply app_empty_r|].
  change ("@" +:+ rest) with (String "@" rest) in Hrest.
  rewrite app_cons, startswith_cons in Hrest.
  apply andb_true_iff in Hrest as [Heq _].
  apply bool_decide_eq_true in Heq as ->.
  assert (no_at (String "@" w') = true) as Hbad.
  { clear -Hkey. induction name as [|d name IH]; [done|].
    rewrite app_cons in Hkey. simpl in Hkey.
    apply andb_true_iff in Hkey as [_ Hkey]. by apply IH. }
  done.
Qed.

Lemma match_word_at_wf segs :
  wf_from false segs = true → match_word_at (flatten segs) = None.
Proof.
  intros Hwf.
  destruct (match_word_at (flatten segs)) as [[name rest]|] eqn:Hmatch; [|done].
  apply match_word_at_inv in Hmatch as [Hname Hrest].
  pose proof (no_word_then_at segs name Hwf (is_name_all_word _ Hname)) as Hno.
  by rewrite Hrest, <- app_assoc_str, startswith_app in Hno.
Qed.

(** What [re.findall] reports on a well-formed template are its holes, in
    their order. *)
Lemma findall_flatten clear segs :
  wf_from clear segs = true → findall (flatten segs) = holes segs.
Proof.
  revert clear; induction segs as [|[text| |name] segs IH]; intros clear Hwf;
    cbn [wf_from flatten holes] in *.
  - done.
  - apply andb_true_iff in Hwf as [Htext Hwf].
    rewrite findall_no_at by done. by apply (IH _ Hwf).
  - apply andb_true_iff in Hwf as [_ Hwf].
    rewrite findall_step; [by apply (IH _ Hwf)|].
    cbn [match_placeholder]. replace (Char.is_at "@") with true by done.
    by apply match_word_at_wf.
  - apply andb_true_iff in Hwf as [[Hname _]%andb_true_iff Hwf].
    rewrite findall_placeholder by done. f_equal. by apply (IH _ Hwf).
Qed.

Lemma replace_no_at s rest old new :
  no_at s = true →
  replace (s +:+ rest) (String "@" old) new
  = s +:+ replace rest (String "@" old) new.
Proof.
  induction s as [|c s IH]; [done|]. cbn [no_at].
  intros [Hc Hs]%andb_true_iff. apply negb_true_iff in Hc.
  rewrite !app_cons, replace_copy, IH; [done..|].
  rewrite startswith_cons. apply andb_false_iff. left.
  apply bool_decide_eq_false. intros <-. done.
Qed.

Lemma replace_at_wf segs key new :
  wf_from false segs = true → all_word key = true →
  replace (String "@" (flatten segs)) (pattern key) new
  = String "@" (replace (flatten segs) (pattern key) new).
Proof.
  intros Hwf Hkey. apply replace_copy.
  rewrite pattern_cons, startswith_cons, (no_word_then_at _ _ Hwf Hkey).
  apply andb_false_r.
Qed.

(** One pass of [str.replace] for a name fills the holes of this name and
    leaves the rest of a well-formed template as it is. *)
Lemma replace_flatten clear segs key value :
  wf_from clear segs = true → is_name key = true →
  replace (flatten segs) (pattern key) value = flatten (fill key value segs).
Proof.
  intros Hwf Hkey. pose proof (is_name_all_word _ Hkey) as Hword.
  revert clear Hwf; induction segs as [|[text| |name] segs IH];
    intros clear Hwf; cbn [wf_from flatten] in *.
  - done.
  - apply andb_true_iff in Hwf as [Htext Hwf].
    rewrite pattern_cons, replace_no_at, <- pattern_cons by done.
    by rewrite (IH _ Hwf).
  - apply andb_true_iff in Hwf as [_ Hwf].
    rewrite replace_at_wf by done. by rewrite (IH _ Hwf).
  - apply andb_true_iff in Hwf as [[Hname _]%andb_true_iff Hwf].
    unfold fill. cbn [fmap list_fmap flatten]. fold (fill key value segs).
    case_bool_decide as Heq.
    + subst name. cbn [flatten].
      rewrite (pattern_cons key) at 1 2. rewrite replace_hit, <- pattern_cons.
      by rewrite (IH _ Hwf).
    + cbn [flatten].
      assert (startswith (pattern name +:+ flatten segs) (pattern key) = false)
        as Hstart.
      { destruct (startswith _ _) eqn:Hstart; [|done].
        apply startswith_pattern_inv in Hstart;
          [done|by apply is_name_no_at..]. }
      unfold pattern at 1 3. rewrite !app_assoc_str.
      change ("@" +:+ name +:+ "@" +:+ ?rest)
        with (String "@" (name +:+ String "@" rest)).
      rewrite replace_copy.
      2:{ revert Hstart. unfold pattern at 1. by rewrite !app_assoc_str. }
      rewrite pattern_cons, replace_no_at, <- pattern_cons
        by by apply is_name_no_at.
      rewrite replace_at_wf by done. by rewrite (IH _ Hwf).
Qed.

Lemma wf_from_mono (clear clear' : bool) segs :
  (clear = true → clear' = true) →
  wf_from clear segs = true → wf_from clear' segs = true.
Proof.
  revert clear clear'; induction segs as [|[text| |name] segs IH];
    intros clear clear' Hle; cbn [wf_from]; [done|..].
  - intros [Htext Hwf]%andb_true_iff. rewrite Htext. simpl.
    revert Hwf. apply IH. intros [->%Hle| ->]%orb_true_iff; [done|].
    apply orb_true_r.
  - intros [Hclear Hwf]%andb_true_iff. by rewrite (Hle Hclear), Hwf.
  - intros [[Hname Hclear]%andb_true_iff Hwf]%andb_true_iff.
    by rewrite Hname, (Hle Hclear), Hwf.
Qed.

(** Filling holes with a value without [@] keeps a template well-formed. *)
Lemma wf_fill clear segs key value :
  no_at value = true →
  wf_from clear segs = true → wf_from clear (fill key value segs) = true.
Proof.
  intros Hvalue. revert clear; induction segs as [|[text| |name] segs IH];
    intros clear; [done|..]; unfold fill; cbn [fmap list_fmap wf_from];
    fold (fill key value segs).
  - intros [Htext Hwf]%andb_true_iff. by rewrite Htext, (IH _ Hwf).
  - intros [Hclear Hwf]%andb_true_iff. by rewrite Hclear, (IH _ Hwf).
  - intros [[Hname Hclear]%andb_true_iff Hwf]%andb_true_iff.
    case_bool_decide; cbn [wf_from].
    + rewrite Hvalue. simpl.
      apply (wf_from_mono false); [done|by apply IH].
    + by rewrite Hname, Hclear, (IH _ Hwf).
Qed.

Lemma fill_all_nil segs : fill_all [] segs = segs.
Proof.
  unfold fill_all. induction segs as [|[text| |name] segs IH];
    cbn [fmap list_fmap] in *; [done|by f_equal..].
Qed.

Lemma fill_all_cons key value kwargs segs :
  fill_all ((key, value) :: kwargs) segs = fill_all kwargs (fill key value segs).
Proof.
  unfold fill_all, fill. rewrite <- list_fmap_compose.
  apply list_fmap_ext. intros _ [text| |name] _; simpl; [done..|].
  by case_bool_decide.
Qed.

(** The loop of [safe_substitute] on a well-formed template, for keys that
    are names and values without [@]: every hole that has a value is
    filled with it. *)
Lemma foldl_replace_step_flatten kwargs clear segs :
  wf_from clear segs = true →
  Forall (λ item, is_name item.1 = true ∧ no_at item.2 = true) kwargs →
  foldl replace_step (flatten segs) kwargs = flatten (fill_all kwargs segs).
Proof.
  intros Hwf Hkwargs. revert segs Hwf.
  induction Hkwargs as [|[key value] kwargs [Hkey Hvalue] _ IH]; intros segs Hwf.
  - by rewrite fill_all_nil.
  - cbn [foldl]. rewrite replace_step_replace. cbn [fst snd] in *.
    rewrite (replace_flatten clear) by done.
    rewrite IH by by apply wf_fill. by rewrite fill_all_cons.
Qed.

Lemma value_of_is_Some kwargs name :
  is_Some (value_of kwargs name) ↔ name ∈ keys kwargs.
Proof.
  induction kwargs as [|[key value] kwargs IH]; cbn [value_of].
  - split; [by intros [? ?]|by intros ?%not_elem_of_empty].
  - rewrite keys_cons, elem_of_union, elem_of_singleton, <- IH.
    case_bool_decide as Heq.
    + split; [by left|by eexists].
    + split; [by right|]. by intros [?|?].
Qed.

Lemma holes_fill_all kwargs segs :
  (∀ name, name ∈ holes segs → name ∈ keys kwargs) →
  holes (fill_all kwargs segs) = [].
Proof.
  unfold fill_all.
  induction segs as [|[text| |name] segs IH]; intros Hcov;
    cbn [fmap list_fmap holes] in *; [done|by apply IH..|].
  destruct (proj2 (value_of_is_Some kwargs name)) as [value ->].
  { apply Hcov. by left. }
  cbn [from_option holes]. apply IH. intros other Hother.
  apply Hcov. by right.
Qed.

Lemma wf_fill_all kwargs clear segs :
  Forall (λ item, no_at item.2 = true) kwargs →
  wf_from clear segs = true → wf_from clear (fill_all kwargs segs) = true.
Proof.
  intros Hkwargs. revert segs.
  induction Hkwargs as [|[key value] kwargs Hvalue _ IH]; intros segs Hwf.
  - by rewrite fill_all_nil.
  - rewrite fill_all_cons. by apply IH, wf_fill.
Qed.

Lemma found_placeholders_flatten segs :
  well_formed segs = true →
  found_placeholders (Build (flatten segs)) = list_to_set (holes segs).
Proof.
  intros Hwf. unfold found_placeholders. cbn [template].
  by rewrite (findall_flatten true).
Qed.

Lemma pattern_app name rest :
  pattern name +:+ rest = String "@" (name +:+ String "@" rest).
Proof. unfold pattern. by rewrite !app_assoc_str. Qed.

(** *** The one-pass reference substitution on a well-formed template *)

Lemma substitute_all_from_skip kwargs k s :
  substitute_all_from kwargs k s = substitute_all (drop k s) kwargs.
Proof.
  revert k; induction s as [|c s IH]; intros [|k]; try done.
  cbn [substitute_all_from drop]. apply IH.
Qed.

Lemma find_none {A} (f : A → bool) (l : list A) :
  Forall (λ x, f x = false) l → List.find f l = None.
Proof. induction 1 as [|x l Hx _ IH]; [done|]. simpl. by rewrite Hx. Qed.

Lemma substitute_all_copy kwargs c s :
  Forall (λ item, startswith (String c s) (pattern item.1) = false) kwargs →
  substitute_all (String c s) kwargs = String c (substitute_all s kwargs).
Proof.
  intros Hnone. unfold substitute_all. cbn [substitute_all_from].
  by rewrite find_none.
Qed.

Lemma substitute_all_no_at kwargs s rest :
  no_at s = true →
  substitute_all (s +:+ rest) kwargs = s +:+ substitute_all rest kwargs.
Proof.
  induction s as [|c s IH]; [done|]. cbn [no_at].
  intros [Hc Hs]%andb_true_iff. apply negb_true_iff in Hc.
  rewrite !app_cons, substitute_all_copy, IH; [done..|].
  apply Forall_forall. intros item _.
  rewrite pattern_cons, startswith_cons. apply andb_false_iff. left.
  apply bool_decide_eq_false. intros <-. done.
Qed.

Lemma substitute_all_at_wf kwargs segs :
  wf_from false segs = true →
  Forall (λ item, is_name item.1 = true) kwargs →
  substitute_all (String "@" (flatten segs)) kwargs
  = String "@" (substitute_all (flatten segs) kwargs).
Proof.
  intros Hwf Hkeys. apply substitute_all_copy.
  eapply Forall_impl; [done|]. intros item Hkey%is_name_all_word.
  rewrite pattern_cons, startswith_cons, (no_word_then_at _ _ Hwf Hkey).
  apply andb_false_r.
Qed.

(** At a placeholder, the first key whose pattern starts the text is the
    first key with the placeholder's name. *)
Lemma find_placeholder kwargs name rest :
  is_name name = true →
  Forall (λ item, is_name item.1 = true) kwargs →
  List.find (λ item, startswith (pattern name +:+ rest) (pattern item.1)) kwargs
  = (λ value, (name, value)) <$> value_of kwargs name.
Proof.
  intros Hname. induction 1 as [|[key value] kwargs Hkey _ IH]; [done|].
  cbn [List.find value_of fst] in *. case_bool_decide as Heq.
  - subst key. by rewrite startswith_app.
  - destruct (startswith _ _) eqn:Hstart; [|done].
    apply startswith_pattern_inv in Hstart; [done|by apply is_name_no_at..].
Qed.

Lemma substitute_all_flatten kwargs clear segs :
  wf_from clear segs = true →
  Forall (λ item, is_name item.1 = true) kwargs →
  substitute_all (flatten segs) kwargs = flatten (fill_all kwargs segs).
Proof.
  intros Hwf Hkeys. revert clear Hwf.
  induction segs as [|[text| |name] segs IH]; intros clear Hwf;
    [done|..]; unfold fill_all; cbn [fmap list_fmap wf_from flatten] in *;
    fold (fill_all kwargs segs).
  - apply andb_true_iff in Hwf as [Htext Hwf].
    by rewrite substitute_all_no_at, (IH _ Hwf).
  - apply andb_true_iff in Hwf as [_ Hwf].
    by rewrite substitute_all_at_wf, (IH _ Hwf).
  - apply andb_true_iff in Hwf as [[Hname _]%andb_true_iff Hwf].
    pose proof (find_placeholder kwargs name (flatten segs) Hname Hkeys)
      as Hfind.
    rewrite pattern_app in Hfind.
    destruct (value_of kwargs name) as [value|]; cbn [from_option flatten];
      rewrite ?pattern_app; unfold substitute_all at 1;
      cbn [substitute_all_from]; rewrite Hfind;
      cbn [fmap option_fmap option_map].
    + rewrite substitute_all_from_skip.
      change (String "@" (flatten segs)) with ("@" +:+ flatten segs).
      by rewrite drop_name, (IH _ Hwf).
    + fold (substitute_all (name +:+ String "@" (flatten segs)) kwargs).
      rewrite substitute_all_no_at by by apply is_name_no_at.
      by rewrite substitute_all_at_wf, (IH _ Hwf).
Qed.

(** *** Every placeholder written in a well-formed template is a hole *)




End ShapeFacts.

(** ** The construction of a template *)

Section ConstructionClaim.

Import Str Regex EmailTemplate Shape Spec.



End ConstructionClaim.

(** ** What the template engine does on well-formed templates *)

Section ShapeTheorems.

Import Str Regex EmailTemplate Shape Spec.
Implicit Types (segs : list segment) (kwargs : list (string * string)).

(** X1: on a template made of text without [@], single [@]s of the text
    and placeholders, any two [@]s being separated by a character that is
    no word character, [re.findall] reports the placeholders' names, each
    occurrence, in the order of the text. *)
Theorem findall_of_well_formed segs :
  well_formed segs = true → findall (flatten segs) = holes segs.
Proof. apply findall_flatten. Qed.

Lemma findall_of_well_formed_witness :
  findall (flatten Shape.template_A) = ["topic"; "body"; "hostname"].
Proof. by apply (findall_of_well_formed Shape.template_A). Defined.

(** X2: a well-formed template is accepted by the constructor exactly
    when hostname, topic and body are among its placeholders. *)
Theorem construction_of_well_formed segs :
  well_formed segs = true →
  (∃ self, __init__ (flatten segs) = Return self)
  ↔ "hostname" ∈ holes segs ∧ "topic" ∈ holes segs ∧ "body" ∈ holes segs.
Proof.
  intros Hwf.
  assert ((∃ self, __init__ (flatten segs) = Return self)
          ↔ _validate_template (Build (flatten segs)) = Return ()) as ->.
  { unfold __init__. split.
    - intros [self Hinit]. by destruct (_validate_template _) as [[]|].
    - intros ->. by eexists. }
  rewrite validate_Return_iff, found_placeholders_flatten by done.
  unfold required_placeholders. split.
  - intros [_ Hsub].
    assert (∀ name, name = "hostname" ∨ name = "topic" ∨ name = "body" →
                    name ∈ holes segs) as Hin.
    { intros name Hname. apply (elem_of_list_to_set (C:=gset string)), Hsub.
      rewrite !elem_of_union, !elem_of_singleton. tauto. }
    repeat split; apply Hin; tauto.
  - intros (Hh & Ht & Hb). split.
    + intros Hempty. apply (elem_of_list_to_set (C:=gset string)) in Hh.
      rewrite Hempty in Hh. by apply not_elem_of_empty in Hh.
    + intros name. rewrite !elem_of_union, !elem_of_singleton.
      intros [[->| ->]| ->]; by apply (elem_of_list_to_set (C:=gset string)).
Qed.

Lemma construction_of_well_formed_witness :
  (∃ self, __init__ (flatten Shape.template_A) = Return self)
  ↔ "hostname" ∈ holes Shape.template_A
    ∧ "topic" ∈ holes Shape.template_A
    ∧ "body" ∈ holes Shape.template_A.
Proof. by apply (construction_of_well_formed Shape.template_A). Defined.

Lemma covered_flatten segs kwargs :
  well_formed segs = true →
  (∀ name, name ∈ holes segs → name ∈ keys kwargs) →
  found_placeholders (Build (flatten segs)) ⊆ keys kwargs.
Proof.
  intros Hwf Hcov name. rewrite found_placeholders_flatten by done.
  intros Hname%elem_of_list_to_set. by apply Hcov.
Qed.

(** X3: on a well-formed template, with keyword arguments the method
    can be called with (no key twice, no key [self]), keys that are
    names, values without [@] and a value for every placeholder,
    [safe_substitute] returns the template with every placeholder
    replaced by the value of its name, and the rest of the text as it
    was. *)
Theorem safe_substitute_fills_holes segs kwargs :
  well_formed segs = true →
  bindable kwargs →
  Forall (λ item, is_name item.1 = true ∧ no_at item.2 = true) kwargs →
  (∀ name, name ∈ holes segs → name ∈ keys kwargs) →
  call_safe_substitute (Build (flatten segs)) kwargs
  = Return (flatten (fill_all kwargs segs))
  ∧ holes (fill_all kwargs segs) = [].
Proof.
  intros Hwf Hbind Hkwargs Hcov. split; [|by apply holes_fill_all].
  rewrite call_bindable by done.
  rewrite safe_substitute_covered by by apply covered_flatten.
  cbn [template]. by rewrite (foldl_replace_step_flatten _ true).
Qed.

Lemma safe_substitute_fills_holes_witness :
  call_safe_substitute (Build (flatten Shape.template_A))
    [("hostname", "node1"); ("topic", "Disk full"); ("body", "Check /var")]
  = Return (flatten
              [Piece "From: a"; At; Piece "x
To: b"; At; Piece "y
Subject: "; Piece "Disk full"; Piece "

"; Piece "Check /var"; Piece " on "; Piece "node1"])
  ∧ holes (fill_all [("hostname", "node1"); ("topic", "Disk full");
                     ("body", "Check /var")] Shape.template_A) = [].
Proof.
  apply (safe_substitute_fills_holes Shape.template_A
           [("hostname", "node1"); ("topic", "Disk full");
            ("body", "Check /var")]).
  - done.
  - compute_done.
  - by repeat constructor.
  - intros name Hname. cbv [Shape.template_A holes] in Hname.
    rewrite !elem_of_cons, elem_of_nil in Hname.
    destruct Hname as [->|[->|[->|[]]]]; compute_done.
Defined.

(** X4: under the same conditions the rendered text holds no placeholder
    any more: [re.findall] finds nothing in it. *)
Theorem rendered_text_has_no_placeholder segs kwargs out :
  well_formed segs = true →
  Forall (λ item, is_name item.1 = true ∧ no_at item.2 = true) kwargs →
  (∀ name, name ∈ holes segs → name ∈ keys kwargs) →
  safe_substitute (Build (flatten segs)) kwargs = Return out →
  findall out = [].
Proof.
  intros Hwf Hkwargs Hcov.
  rewrite safe_substitute_covered by by apply covered_flatten.
  cbn [template]. rewrite (foldl_replace_step_flatten _ true) by done.
  intros [= <-]. rewrite (findall_flatten true).
  - by apply holes_fill_all.
  - apply wf_fill_all; [|done].
    eapply Forall_impl; [done|]. by intros item [_ ?].
Qed.

Lemma rendered_text_has_no_placeholder_witness :
  findall "From: a@x
To: b@y
Subject: Disk full

Check /var on node1" = [].
Proof.
  apply (rendered_text_has_no_placeholder Shape.template_A
           [("hostname", "node1"); ("topic", "Disk full");
            ("body", "Check /var")]).
  - done.
  - by repeat constructor.
  - intros name Hname. cbv [Shape.template_A holes] in Hname.
    rewrite !elem_of_cons, elem_of_nil in Hname.
    destruct Hname as [->|[->|[->|[]]]]; compute_done.
  - by vm_compute.
Defined.

(** X5: on a well-formed template, with keyword arguments the method
    can be called with (no key twice, no key [self]), keys that are
    names, values without [@] and a value for every placeholder, the
    key-by-key loop of [safe_substitute] gives what one pass over the
    template gives that replaces every [@key@] by its value. *)
Theorem safe_substitute_is_one_pass_when_well_formed segs kwargs :
  well_formed segs = true →
  bindable kwargs →
  Forall (λ item, is_name item.1 = true ∧ no_at item.2 = true) kwargs →
  (∀ name, name ∈ holes segs → name ∈ keys kwargs) →
  call_safe_substitute (Build (flatten segs)) kwargs
  = Return (substitute_all (flatten segs) kwargs).
Proof.
  intros Hwf Hbind Hkwargs Hcov.
  rewrite call_bindable by done.
  rewrite safe_substitute_covered by by apply covered_flatten.
  cbn [template]. rewrite (foldl_replace_step_flatten _ true) by done.
  rewrite (substitute_all_flatten _ true); [done..|].
  eapply Forall_impl; [done|]. by intros item [? _].
Qed.

Lemma safe_substitute_is_one_pass_when_well_formed_witness :
  call_safe_substitute (Build (flatten Shape.template_A))
    [("hostname", "node1"); ("topic", "Disk full"); ("body", "Check /var")]
  = Return (substitute_all (flatten Shape.template_A)
              [("hostname", "node1"); ("topic", "Disk full");
               ("body", "Check /var")]).
Proof.
  apply (safe_substitute_is_one_pass_when_well_formed Shape.template_A).
  - done.
  - compute_done.
  - by repeat constructor.
  - intros name Hname. cbv [Shape.template_A holes] in Hname.
    rewrite !elem_of_cons, elem_of_nil in Hname.
    destruct Hname as [->|[->|[->|[]]]]; compute_done.
Defined.

Lemma value_of_Permutation kwargs kwargs' name :
  NoDup kwargs.*1 → kwargs ≡ₚ kwargs' →
  value_of kwargs name = value_of kwargs' name.
Proof.
  intros Hnodup Hperm.
  induction Hperm as [|[key value] l l' Hperm IH
                      |[key1 value1] [key2 value2] l|l l' l'' Hperm1 IH1 Hperm2 IH2].
  - done.
  - cbn [value_of]. case_bool_decide; [done|].
    apply IH. by apply NoDup_cons_1_2 in Hnodup.
  - cbn [value_of]. repeat case_bool_decide; try done.
    subst. apply NoDup_cons_1_1 in Hnodup. destruct Hnodup. by left.
  - rewrite IH1 by done. apply IH2. by rewrite <- Hperm1.
Qed.

Lemma keys_Permutation kwargs kwargs' :
  kwargs ≡ₚ kwargs' → keys kwargs = keys kwargs'.
Proof.
  intros Hperm. apply leibniz_equiv. intros name. unfold keys.
  by rewrite !elem_of_list_to_set, Hperm.
Qed.

Lemma fill_all_ext kwargs kwargs' segs :
  (∀ name, value_of kwargs name = value_of kwargs' name) →
  fill_all kwargs segs = fill_all kwargs' segs.
Proof.
  intros Hsame. unfold fill_all. apply list_fmap_ext.
  intros _ [text| |name] _; [done..|]. by rewrite Hsame.
Qed.

(** X6: on a well-formed template, with keys that are names and values
    without [@], the order of the keyword arguments does not matter:
    [safe_substitute] returns, or raises, the same for every order of the
    same arguments. *)
Theorem safe_substitute_any_order segs kwargs kwargs' :
  well_formed segs = true →
  Forall (λ item, is_name item.1 = true ∧ no_at item.2 = true) kwargs →
  NoDup kwargs.*1 →
  kwargs ≡ₚ kwargs' →
  safe_substitute (Build (flatten segs)) kwargs
  = safe_substitute (Build (flatten segs)) kwargs'.
Proof.
  intros Hwf Hkwargs Hnodup Hperm.
  unfold safe_substitute. rewrite <- (keys_Permutation _ _ Hperm).
  case_decide; [|done]. cbn [template]. f_equal.
  rewrite !(foldl_replace_step_flatten _ true); [|done|by rewrite <- Hperm|done..].
  f_equal. apply fill_all_ext. intros name. by apply value_of_Permutation.
Qed.

Lemma safe_substitute_any_order_witness :
  safe_substitute (Build (flatten Shape.template_A))
    [("hostname", "node1"); ("topic", "Disk full"); ("body", "Check /var")]
  = safe_substitute (Build (flatten Shape.template_A))
      [("body", "Check /var"); ("hostname", "node1"); ("topic", "Disk full")].
Proof.
  apply (safe_substitute_any_order Shape.template_A).
  - done.
  - by repeat constructor.
  - compute_done.
  - apply (Permutation_app_comm
             [("hostname", "node1"); ("topic", "Disk full")]
             [("body", "Check /var")]).
Defined.

End ShapeTheorems.

(** ** Construction and substitution together *)

Section TemplateUse.

Import Str Regex EmailTemplate Shape.
Implicit Types (self : EmailTemplate.t) (kwargs : list (string * string)).

Lemma init_Return_inv T self :
  __init__ T = Return self →
  self = Build T ∧ required_placeholders ⊆ found_placeholders self.
Proof.
  unfold __init__.
  destruct (_validate_template (Build T)) as [[]|e] eqn:Hval; [|done].
  intros [= <-]. split; [done|]. by apply validate_Return_iff in Hval as [_ ?].
Qed.

(** X7: a template the constructor accepted cannot be rendered without
    hostname, topic and body: leaving one of them out of keyword
    arguments the method can be called with (no key twice, no key
    [self]) makes [safe_substitute] raise a [TemplateError] that names
    it, whatever else is passed. *)
Theorem required_key_left_out T self kwargs key :
  __init__ T = Return self →
  bindable kwargs →
  key ∈ required_placeholders →
  key ∉ keys kwargs →
  call_safe_substitute self kwargs
  = Raise (Exc TemplateError
             [Text "Missing values for placeholders: ";
              Names (found_placeholders self ∖ keys kwargs)])
  ∧ key ∈ found_placeholders self ∖ keys kwargs.
Proof.
  intros [_ Hreq]%init_Return_inv Hbind Hkey Hout.
  assert (key ∈ found_placeholders self ∖ keys kwargs) as Hmissing.
  { apply elem_of_difference. split; [by apply Hreq|done]. }
  split; [|done]. rewrite call_bindable by done.
  apply safe_substitute_uncovered.
  intros Hcov. apply Hout, Hcov. by apply Hreq.
Qed.

Lemma required_key_left_out_witness :
  call_safe_substitute Runs.colon_template [("hostname", "H"); ("body", "B")]
  = Raise (Exc TemplateError
             [Text "Missing values for placeholders: ";
              Names (found_placeholders Runs.colon_template
                       ∖ keys [("hostname", "H"); ("body", "B")])])
  ∧ "topic" ∈ found_placeholders Runs.colon_template
              ∖ keys [("hostname", "H"); ("body", "B")].
Proof.
  apply (required_key_left_out "@hostname@:@topic@:@body@"
           Runs.colon_template [("hostname", "H"); ("body", "B")] "topic").
  - by vm_compute.
  - compute_done.
  - compute_done.
  - compute_done.
Defined.

Lemma keys_main_kwargs w args :
  keys (main_kwargs w args) = required_placeholders.
Proof.
  unfold main_kwargs, required_placeholders.
  rewrite !keys_cons. unfold keys. cbn [fmap list_fmap list_to_set].
  apply leibniz_equiv. intros name.
  rewrite !elem_of_union, !elem_of_singleton, elem_of_empty. tauto.
Qed.

(** X8: with the three keyword arguments [main] passes, a template the
    constructor accepted is rendered exactly when hostname, topic and body
    are its only placeholders; any further placeholder in the template
    file makes the substitution raise. *)
Theorem main_renders_iff_only_required T self w args :
  __init__ T = Return self →
  (∃ out, safe_substitute self (main_kwargs w args) = Return out)
  ↔ found_placeholders self = required_placeholders.
Proof.
  intros [_ Hreq]%init_Return_inv. split.
  - intros [out Hout].
    destruct (decide (found_placeholders self ⊆ keys (main_kwargs w args)))
      as [Hcov|Hcov].
    + rewrite keys_main_kwargs in Hcov. apply leibniz_equiv.
      intros name. split; [apply Hcov|apply Hreq].
    + by rewrite safe_substitute_uncovered in Hout.
  - intros Hsame. rewrite safe_substitute_covered; [by eexists|].
    by rewrite keys_main_kwargs, Hsame.
Qed.

Lemma main_renders_iff_only_required_witness :
  (∃ out, safe_substitute (Build "@hostname@ @topic@ @body@ @date@")
            (main_kwargs Runs.scenario_A Runs.args_A) = Return out)
  ↔ found_placeholders (Build "@hostname@ @topic@ @body@ @date@")
    = required_placeholders.
Proof.
  apply (main_renders_iff_only_required "@hostname@ @topic@ @body@ @date@").
  by vm_compute.
Defined.

Lemma foldl_replace_step_no_at kwargs before rest :
  no_at before = true →
  foldl replace_step (before +:+ rest) kwargs
  = before +:+ foldl replace_step rest kwargs.
Proof.
  intros Hbefore. revert rest.
  induction kwargs as [|[key value] kwargs IH]; intros rest; [done|].
  cbn [foldl]. rewrite !replace_step_replace. cbn [fst snd].
  by rewrite pattern_cons, replace_no_at, IH.
Qed.

(** X9: text in front of the first [@] of a template plays no part in the
    substitution: it is returned as it is, followed by what
    [safe_substitute] makes of the rest, and it changes neither whether
    nor what [safe_substitute] raises. *)
Theorem text_before_first_at_is_kept before rest kwargs :
  no_at before = true →
  safe_substitute (Build (before +:+ rest)) kwargs
  = match safe_substitute (Build rest) kwargs with
    | Return out => Return (before +:+ out)
    | Raise e => Raise e
    end.
Proof.
  intros Hbefore. unfold safe_substitute, found_placeholders. cbn [template].
  rewrite findall_no_at by done. case_decide; [|done].
  by rewrite foldl_replace_step_no_at.
Qed.

Lemma text_before_first_at_is_kept_witness :
  safe_substitute (Build ("Subject: " +:+ "@topic@ (@hostname@)
@body@"))
    [("hostname", "node1"); ("topic", "Disk full"); ("body", "Check /var")]
  = Return ("Subject: " +:+ "Disk full (node1)
Check /var").
Proof.
  rewrite (text_before_first_at_is_kept "Subject: ") by done.
  by vm_compute.
Defined.

End TemplateUse.

(** ** Delivery and the whole run, further *)

Section RunExtras.

Import Str Regex EmailTemplate Shape.

Lemma started_app tr tr' : started (tr ++ tr') = started tr ++ started tr'.
Proof.
  induction tr as [|[level msg|msg|argv stdin] tr IH]; cbn [app started];
    [done|done|done|by f_equal].
Qed.

Lemma started_input_log w args : started (input_log w args) = [].
Proof. reflexivity. Qed.

Lemma started_failure_report e : started (failure_report e) = [].
Proof. reflexivity. Qed.

Lemma started_handled e tr : started (handled e tr).2 = started tr.
Proof.
  unfold handled. destruct (isinstance e Exception); [|done].
  cbn [snd]. by rewrite started_app, started_failure_report, app_nil_r.
Qed.

Lemma handled_not_0 e tr : (handled e tr).1 ≠ Return 0.
Proof. unfold handled. by destruct (isinstance e Exception). Qed.

(** Behind the parser [main] either fails before it has anything to send,
    or has rendered a message. *)
Lemma run_before_delivery w args :
  parse_args w = Parsed args →
  (∃ e, run w = handled e (input_log w args))
  ∨ (∃ email_content, rendered w args email_content).
Proof.
  intros Hargs. unfold run. rewrite (main_parsed _ _ _ Hargs), app_nil_l.
  destruct (isfile w (template_path w)) eqn:Hfile;
    [|rewrite read_template_not_file by done; left; by eexists].
  destruct (open_read w (template_path w)) as [contents|e] eqn:Hread;
    [|rewrite (read_template_read_fails _ _ _ e) by done;
      left; destruct (_ || _); by eexists].
  rewrite (read_template_text _ _ _ contents) by done.
  destruct (__init__ contents) as [template|e] eqn:Hinit;
    [|left; by eexists].
  destruct (safe_substitute template _) as [email_content|e] eqn:Hsub;
    [|left; by eexists].
  right. by exists email_content, contents, template.
Qed.

(** X10: [main] returns 0 exactly when the command line was parsed, the
    template was read and rendered, the configuration file is there, and
    the agent, given the rendered message, exited with status 0. *)
Theorem main_returns_0_iff (w : World) :
  (run w).1 = Return 0
  ↔ ∃ args email_content stdout stderr,
      parse_args w = Parsed args
      ∧ rendered w args email_content
      ∧ isfile w (msmtprc w) = true
      ∧ msmtp w (msmtp_argv (msmtprc w)) email_content
        = Exited 0 stdout stderr.
Proof.
  split.
  - intros Hrun. destruct (parse_args w) as [args|status] eqn:Hargs.
    2:{ unfold run in Hrun. by rewrite (main_parser_exit _ _ status) in Hrun. }
    destruct (run_before_delivery _ _ Hargs) as [[e He]|[content Hrendered]].
    { rewrite He in Hrun. by apply handled_not_0 in Hrun. }
    rewrite (run_rendered _ _ _ Hargs Hrendered) in Hrun.
    destruct (isfile w (msmtprc w)) eqn:Hcfg.
    2:{ rewrite send_email_no_config in Hrun by done.
        by apply handled_not_0 in Hrun. }
    rewrite send_email_with_config in Hrun by done.
    destruct (msmtp w _ content) as [e|e|returncode stdout stderr] eqn:Hagent.
    + destruct (isinstance e SubprocessError);
        by apply handled_not_0 in Hrun.
    + destruct (isinstance e SubprocessError);
        by apply handled_not_0 in Hrun.
    + case_bool_decide as Hrc; [by apply handled_not_0 in Hrun|].
      subst returncode. by exists args, content, stdout, stderr.
  - intros (args & content & stdout & stderr & Hargs & Hrendered & Hcfg & Hagent).
    by rewrite (run_agent_exited _ _ _ _ _ _ Hargs Hrendered Hcfg Hagent).
Qed.

Lemma main_returns_0_iff_witness :
  (run Runs.scenario_A).1 = Return 0.
Proof.
  apply (proj2 (main_returns_0_iff Runs.scenario_A)).
  exists Runs.args_A, "From: a@x
To: b@y
Subject: Disk full

Check /var on node1", "", "".
  split; [done|]. split; [|done].
  exists Runs.template_A, (Build Runs.template_A). by vm_compute.
Defined.

(** X11: a run of [main] starts at most one child process, and only with
    the command line [msmtp --file <config> --read-envelope-from
    --read-recipients], an existing configuration file and the rendered
    message as its input. *)
Theorem main_starts_at_most_one_agent (w : World) :
  started (run w).2 = []
  ∨ ∃ args email_content,
      parse_args w = Parsed args
      ∧ rendered w args email_content
      ∧ isfile w (msmtprc w) = true
      ∧ started (run w).2 = [(msmtp_argv (msmtprc w), email_content)].
Proof.
  destruct (parse_args w) as [args|status] eqn:Hargs.
  2:{ left. unfold run. by rewrite (main_parser_exit _ _ status). }
  destruct (run_before_delivery _ _ Hargs) as [[e He]|[content Hrendered]].
  { left. by rewrite He, started_handled. }
  rewrite (run_rendered _ _ _ Hargs Hrendered).
  destruct (isfile w (msmtprc w)) eqn:Hcfg.
  2:{ left. rewrite send_email_no_config by done. by rewrite started_handled. }
  rewrite send_email_with_config by done.
  destruct (msmtp w _ content) as [e|e|returncode stdout stderr] eqn:Hagent.
  - left. destruct (isinstance e SubprocessError); by rewrite started_handled.
  - right. exists args, content. repeat split; [done..|].
    destruct (isinstance e SubprocessError);
      by rewrite started_handled, started_app.
  - right. exists args, content. repeat split; [done..|].
    case_bool_decide; [by rewrite started_handled, started_app|].
    cbn [snd]. by rewrite !started_app.
Qed.

(** X12: an empty [--hostname] is the same as none: the run is the one
    with the hostname left out, in which the system's hostname is used. *)
Theorem empty_hostname_is_no_hostname (w : World) (topic body : string) :
  run (with_args w {| topic := topic; body := body; hostname := Some "" |})
  = run (with_args w {| topic := topic; body := body; hostname := None |}).
Proof.
  unfold run.
  rewrite (main_parsed _ _ {| topic := topic; body := body; hostname := Some "" |})
    by done.
  by rewrite (main_parsed _ _ {| topic := topic; body := body; hostname := None |})
    by done.
Qed.



(** X14: [send_email] raises only in two ways: a [RuntimeError] for the
    missing configuration file, before anything is started, or the
    exception that [Popen] or [communicate] raised when this is no
    [SubprocessError]. It never raises a [SubprocessError]. *)
Theorem send_email_raises_only w content tr e tr' :
  send_email w content tr = (Raise e, tr') →
  isinstance e SubprocessError = false
  ∧ ((isfile w (msmtprc w) = false
      ∧ e = Exc RuntimeError [Text ("msmtp config not found: " +:+ msmtprc w)]
      ∧ tr' = tr)
     ∨ (isfile w (msmtprc w) = true
        ∧ msmtp w (msmtp_argv (msmtprc w)) content = PopenFails e
        ∧ tr' = tr)
     ∨ (isfile w (msmtprc w) = true
        ∧ msmtp w (msmtp_argv (msmtprc w)) content = CommunicateFails e
        ∧ tr' = tr ++ [Popen (msmtp_argv (msmtprc w)) content])).
Proof.
  destruct (isfile w (msmtprc w)) eqn:Hcfg.
  - rewrite send_email_with_config by done.
    destruct (msmtp w _ content) as [e'|e'|returncode stdout stderr] eqn:Hagent.
    + destruct (isinstance e' SubprocessError) eqn:He; intros [= <- <-].
      split; [done|]. right; left. done.
    + destruct (isinstance e' SubprocessError) eqn:He; intros [= <- <-].
      split; [done|]. right; right. done.
    + done.
  - rewrite send_email_no_config by done. intros [= <- <-].
    split; [done|]. by left.
Qed.

Lemma send_email_raises_only_witness :
  isinstance (Exc FileNotFoundError
                [Text "[Errno 2] No such file or directory: 'msmtp'"])
    SubprocessError = false.
Proof.
  by apply (send_email_raises_only Runs.msmtp_not_installed "x" []
              (Exc FileNotFoundError
                 [Text "[Errno 2] No such file or directory: 'msmtp'"]) []).
Defined.

(** *** [str.strip] *)

Lemma rstrip_spec s :
  ∃ r, s = rstrip s +:+ r
       ∧ all_space r = true
       ∧ (∀ c, last_char (rstrip s) = Some c → Char.is_space c = false).
Proof.
  induction s as [|c s (r & Hs & Hr & Hlast)]; [by exists ""|].
  cbn [rstrip]. destruct (rstrip s) as [|d t] eqn:Hstrip.
  - rewrite app_empty_l in Hs. subst r.
    destruct (Char.is_space c) eqn:Hc.
    + exists (String c s). cbn [all_space]. by rewrite Hc, Hr.
    + exists s. repeat split; [done|]. by intros ? [= <-].
  - exists r. rewrite app_cons. by rewrite <- Hs.
Qed.

Lemma lstrip_spec s :
  ∃ l, s = l +:+ lstrip s
       ∧ all_space l = true
       ∧ (∀ c rest, lstrip s = String c rest → Char.is_space c = false).
Proof.
  induction s as [|c s (l & Hs & Hl & Hfirst)]; [by exists ""|].
  cbn [lstrip]. destruct (Char.is_space c) eqn:Hc.
  - exists (String c l). rewrite app_cons, <- Hs. cbn [all_space].
    by rewrite Hc, Hl.
  - exists "". split; [done|]. split; [done|]. by intros ? ? [= <- _].
Qed.

Lemma last_char_lstrip s c :
  last_char (lstrip s) = Some c → last_char s = Some c.
Proof.
  induction s as [|d s IH]; [done|]. cbn [lstrip].
  destruct (Char.is_space d); [|done].
  intros Hlast. specialize (IH Hlast). by destruct s.
Qed.

(** [strip] removes whitespace at both ends and nothing else. *)
Lemma strip_spec s :
  ∃ l r, s = l +:+ strip s +:+ r
         ∧ all_space l = true ∧ all_space r = true
         ∧ (∀ c rest, strip s = String c rest → Char.is_space c = false)
         ∧ (∀ c, last_char (strip s) = Some c → Char.is_space c = false).
Proof.
  destruct (rstrip_spec s) as (r & Hs & Hr & Hlast).
  destruct (lstrip_spec (rstrip s)) as (l & Hl' & Hl & Hfirst).
  exists l, r. unfold strip. repeat split; [|done..|].
  - by rewrite <- app_assoc_str, <- Hl'.
  - intros c Hc. by apply Hlast, last_char_lstrip.
Qed.

(** X15: after an exit status other than 0, the error text [send_email]
    returns is the agent's standard error without the whitespace at its
    two ends: what is cut off is whitespace only, and the text neither
    starts nor ends with whitespace. *)
Theorem send_email_error_text_is_trimmed
    w content tr returncode stdout stderr :
  isfile w (msmtprc w) = true →
  msmtp w (msmtp_argv (msmtprc w)) content = Exited returncode stdout stderr →
  returncode ≠ 0 →
  ∃ text l r,
    send_email w content tr
    = (Return (false, Some [Text text]),
       tr ++ [Popen (msmtp_argv (msmtprc w)) content])
    ∧ stderr = l +:+ text +:+ r
    ∧ all_space l = true ∧ all_space r = true
    ∧ (∀ c rest, text = String c rest → Char.is_space c = false)
    ∧ (∀ c, last_char text = Some c → Char.is_space c = false).
Proof.
  intros Hcfg Hagent Hrc.
  destruct (strip_spec stderr) as (l & r & Hsplit).
  exists (strip stderr), l, r. split; [|done].
  rewrite send_email_with_config, Hagent by done.
  by rewrite bool_decide_eq_true_2.
Qed.

Lemma send_email_error_text_is_trimmed_witness :
  ∃ text l r,
    send_email Runs.scenario_C "x" []
    = (Return (false, Some [Text text]),
       [] ++ [Popen (msmtp_argv (msmtprc Runs.scenario_C)) "x"])
    ∧ "relay timeout
" = l +:+ text +:+ r
    ∧ all_space l = true ∧ all_space r = true
    ∧ (∀ c rest, text = String c rest → Char.is_space c = false)
    ∧ (∀ c, last_char text = Some c → Char.is_space c = false).
Proof.
  by apply (send_email_error_text_is_trimmed Runs.scenario_C "x" [] 3 "").
Defined.

(** X16: [read_template] logs, prints and starts nothing, and for an
    existing file it never raises an [OSError] or a [UnicodeDecodeError]:
    what reading raises of these classes leaves it as a [TemplateError]. *)
Theorem read_template_wraps_read_errors w path tr outcome tr' :
  read_template w path tr = (outcome, tr') →
  tr' = tr
  ∧ (isfile w path = true →
     ∀ e, outcome = Raise e →
          isinstance e OSError = false
          ∧ isinstance e UnicodeDecodeError = false).
Proof.
  destruct (isfile w path) eqn:Hfile.
  - destruct (open_read w path) as [contents|e'] eqn:Hread.
    + rewrite (read_template_text _ _ _ contents) by done.
      intros [= <- <-]. split; [done|].
      by intros _ e [msg ->]%init_raises_TemplateError.
    + rewrite (read_template_read_fails _ _ _ e') by done.
      intros [= <- <-]. split; [done|]. intros _ e.
      destruct (isinstance e' OSError) eqn:Hos;
        destruct (isinstance e' UnicodeDecodeError) eqn:Hdec;
        simpl; intros [= <-]; done.
  - rewrite read_template_not_file by done. by intros [= <- <-].
Qed.

Lemma read_template_wraps_read_errors_witness :
  isinstance (Exc TemplateError
                [Text "Error reading template file: 'utf-8' codec can't decode byte 0xff in position 0: invalid start byte"])
    OSError = false
  ∧ isinstance (Exc TemplateError
                  [Text "Error reading template file: 'utf-8' codec can't decode byte 0xff in position 0: invalid start byte"])
      UnicodeDecodeError = false.
Proof.
  destruct (read_template_wraps_read_errors Runs.undecodable_template
              "/opt/notify/template.txt" [] _ _ eq_refl) as [_ Hwrap].
  by apply Hwrap.
Defined.

Lemma init_flatten segs :
  well_formed segs = true →
  (∀ name, name ∈ ["hostname"; "topic"; "body"] → name ∈ holes segs) →
  __init__ (flatten segs) = Return (Build (flatten segs)).
Proof.
  intros Hwf Hreq. unfold __init__.
  rewrite (proj2 (validate_Return_iff (Build (flatten segs)))); [done|].
  rewrite found_placeholders_flatten by done.
  assert (required_placeholders ⊆ list_to_set (holes segs)) as Hsub.
  { intros name. unfold required_placeholders.
    rewrite !elem_of_union, !elem_of_singleton, elem_of_list_to_set.
    intros Hname. apply Hreq. rewrite !elem_of_cons. tauto. }
  split; [|done]. intros Hempty.
  assert ("body" ∈ required_placeholders) as Hbody%Hsub by compute_done.
  rewrite Hempty in Hbody. by apply not_elem_of_empty in Hbody.
Qed.

(** X17: end to end. When the template file holds a well-formed template
    whose placeholders are hostname, topic and body, the topic, the body
    and the hostname in use hold no [@], the configuration file is there
    and the agent exits with status 0, then [main] returns 0 and the agent
    was given the template with every placeholder replaced by its
    argument, and nothing else was started or printed. *)
Theorem well_formed_template_is_delivered w args segs stdout stderr :
  parse_args w = Parsed args →
  isfile w (template_path w) = true →
  open_read w (template_path w) = FileText (flatten segs) →
  well_formed segs = true →
  (∀ name, name ∈ holes segs ↔ name ∈ ["hostname"; "topic"; "body"]) →
  no_at (effective_hostname w args) = true →
  no_at (topic args) = true →
  no_at (body args) = true →
  isfile w (msmtprc w) = true →
  msmtp w (msmtp_argv (msmtprc w))
    (flatten (fill_all (main_kwargs w args) segs))
  = Exited 0 stdout stderr →
  run w
  = (Return 0,
     input_log w args
       ++ [Popen (msmtp_argv (msmtprc w))
             (flatten (fill_all (main_kwargs w args) segs));
           Log INFO [Text "Email sent successfully"]]).
Proof.
  intros Hargs Hfile Hread Hwf Hholes Hh Ht Hb Hcfg Hagent.
  assert (rendered w args (flatten (fill_all (main_kwargs w args) segs)))
    as Hrendered.
  { exists (flatten segs), (Build (flatten segs)).
    split; [done|]. split; [done|]. split.
    - apply init_flatten; [done|]. intros name. apply Hholes.
    - rewrite safe_substitute_covered.
      + cbn [template]. f_equal.
        apply (foldl_replace_step_flatten _ true); [done|].
        by repeat constructor.
      + rewrite found_placeholders_flatten, keys_main_kwargs by done.
        intros name Hname%elem_of_list_to_set%Hholes.
        unfold required_placeholders.
        rewrite !elem_of_union, !elem_of_singleton.
        rewrite !elem_of_cons, elem_of_nil in Hname. tauto. }
  by rewrite (run_agent_exited _ _ _ _ _ _ Hargs Hrendered Hcfg Hagent).
Qed.

Lemma well_formed_template_is_delivered_witness :
  run Runs.scenario_A
  = (Return 0,
     input_log Runs.scenario_A Runs.args_A
       ++ [Popen (msmtp_argv (msmtprc Runs.scenario_A))
             (flatten (fill_all (main_kwargs Runs.scenario_A Runs.args_A)
                         Shape.template_A));
           Log INFO [Text "Email sent successfully"]]).
Proof.
  apply (well_formed_template_is_delivered Runs.scenario_A Runs.args_A
           Shape.template_A "" ""); try done.
  intros name. cbv [Shape.template_A holes].
  rewrite !elem_of_cons, elem_of_nil. tauto.
Defined.

(** X18: a hostname given on the command line, unless empty, is the one
    used: the run does not depend on what the system reports as its node
    name or in [COMPUTERNAME]. *)
Theorem given_hostname_overrides_system w args h nodename computername :
  parse_args w = Parsed args →
  hostname args = Some h →
  h ≠ "" →
  run (with_system_name w nodename computername) = run w.
Proof.
  intros Hargs Hgiven Hh. unfold run.
  rewrite (main_parsed w _ args), (main_parsed (with_system_name _ _ _) _ args)
    by done.
  assert (effective_hostname (with_system_name w nodename computername) args
          = effective_hostname w args) as Hsame.
  { unfold effective_hostname. rewrite Hgiven. by case_bool_decide. }
  unfold input_log, main_kwargs. by rewrite Hsame.
Qed.

Lemma given_hostname_overrides_system_witness :
  run (with_system_name Runs.scenario_A None (Some "DESKTOP-7"))
  = run Runs.scenario_A.
Proof.
  by apply (given_hostname_overrides_system Runs.scenario_A Runs.args_A "node1").
Defined.



End RunExtras.
